(** * mma_espn_analysis: the aggregation pipeline of [src/data_processing.py]

    A shallow embedding of the functions of [data_processing.py] that the
    dashboard calls, and the properties of the specification proved (or
    refuted) on them.

    Conventions of the embedding.
    - A Python [str] is a Rocq [string]; a character is a code point below
      256.
    - A cell of a pandas table that can be missing is a [cell]: Python's
      [None], a float NaN, or a string.  Numeric cells are [option Q], with
      [None] for NaN: arithmetic is exact, the rounding of binary floating
      point is outside the model.
    - A [defaultdict(int)] is a [gmap string nat]; a missing key reads 0.
    - A function that can raise returns a [result]. *)

From Stdlib Require Import Ascii String QArith Qfield Lia.
From stdpp Require Import gmap strings list sorting.

Close Scope Q_scope.
Local Open Scope string_scope.
Local Open Scope nat_scope.

(** ** Python strings *)

Module Py.

(** [str.isspace] on one character, for code points below 256: the ASCII
    controls 9..13 and 28..31, the space, NEL (133) and the no-break
    space (160). *)
Definition isspace (c : ascii) : bool :=
  let n := nat_of_ascii c in
  ((9 <=? n) && (n <=? 13)) || ((28 <=? n) && (n <=? 31))
  || (n =? 32) || (n =? 133) || (n =? 160).

(** [s.lstrip()] *)
Fixpoint lstrip (s : string) : string :=
  match s with
  | EmptyString => EmptyString
  | String c s' => if isspace c then lstrip s' else s
  end.

(** [s.rstrip()] *)
Fixpoint rstrip (s : string) : string :=
  match s with
  | EmptyString => EmptyString
  | String c s' =>
      match rstrip s' with
      | EmptyString => if isspace c then EmptyString else String c EmptyString
      | t => String c t
      end
  end.

(** [s.strip()] *)
Definition strip (s : string) : string := rstrip (lstrip s).

(** [c.upper()] on the ASCII letters.  On the other code points Python's
    [upper] yields a character outside ASCII (or ["SS"] for the sharp s),
    never the letter W; they are left as they are here, which does not
    change the outcome of the only use of [upper] in the module, the
    comparison with ["W"]. *)
Definition upper_char (c : ascii) : ascii :=
  let n := nat_of_ascii c in
  if (97 <=? n) && (n <=? 122) then ascii_of_nat (n - 32) else c.

(** [s.upper()] *)
Fixpoint upper (s : string) : string :=
  match s with
  | EmptyString => EmptyString
  | String c s' => String (upper_char c) (upper s')
  end.

Definition comma : ascii := ","%char.

(** [',' in s] *)
Fixpoint has_comma (s : string) : bool :=
  match s with
  | EmptyString => false
  | String c s' => if Ascii.eqb c comma then true else has_comma s'
  end.

(** [s.split(',', 1)]: the list of the parts, two when [s] has a comma. *)
Fixpoint split_comma_1 (s : string) : list string :=
  match s with
  | EmptyString => [EmptyString]
  | String c s' =>
      if Ascii.eqb c comma then [EmptyString; s']
      else match split_comma_1 s' with
           | p :: rest => String c p :: rest
           | [] => []
           end
  end.

(** [parts[i]]; the index is in range wherever the module subscripts. *)
Definition item (parts : list string) (i : nat) : string :=
  default EmptyString (parts !! i).

End Py.

(** ** Cells *)

Inductive cell : Type :=
| CNone                (* None *)
| CNaN                 (* float('nan'), what read_csv gives an empty field *)
| CStr (s : string).

#[global] Instance cell_eq_dec : EqDecision cell.
Proof. solve_decision. Defined.

(** [pd.notna(x)] *)
Definition notna (x : cell) : bool :=
  match x with CStr _ => true | _ => false end.

(** The truth value of a cell in [if x:]: [None] and the empty string are
    false, NaN (a non-zero float) is true. *)
Definition truthy (x : cell) : bool :=
  match x with
  | CNone => false
  | CNaN => true
  | CStr s => negb (String.eqb s "")
  end.

(** [x == lit] for a string literal [lit]. *)
Definition cell_is (x : cell) (lit : string) : bool :=
  match x with CStr s => String.eqb s lit | _ => false end.

(** ** The name normalizer *)

(** [_normalize_name].  The argument is a cell of a name column: [None],
    NaN or a string ([str(name)] is the string itself). *)
Definition _normalize_name (name : cell) : option string :=
  match name with
  | CNone | CNaN => None
  | CStr s =>
      let name_str := Py.strip s in
      if Py.has_comma name_str then
        let parts := Py.split_comma_1 name_str in
        let last := Py.strip (Py.item parts 0) in
        let first := Py.strip (Py.item parts 1) in
        Some (first +:+ " " +:+ last)
      else Some name_str
  end.

(** The normalizer in the words of the specification: the raw string is
    split at its first comma, both parts are trimmed, and the result is
    ["First Last"]; a string with no comma is trimmed. *)
Definition normalize_spec (name : cell) : option string :=
  match name with
  | CNone | CNaN => None
  | CStr raw =>
      if Py.has_comma raw then
        let parts := Py.split_comma_1 raw in
        Some (Py.strip (Py.item parts 1) +:+ " " +:+ Py.strip (Py.item parts 0))
      else Some (Py.strip raw)
  end.

(** ** Numbers and errors *)

(** An [int] count as a float. *)
Definition Qnat (n : nat) : Q := inject_Z (Z.of_nat n).

(** [n / d * 100] on two counts (Python's true division). *)
Definition percent_of (n d : nat) : Q := (Qnat n / Qnat d * 100)%Q.

(** The sum of a numeric column. *)
Definition Qsum (l : list Q) : Q := foldr Qplus 0%Q l.

(** The exceptions that the functions below can raise: the [ValueError]
    of the guard of [top_fighters_by_metric], and two that pandas raises,
    the [KeyError] of a selection by a label that the table does not have
    and the [ValueError] of a sort by a label that two columns carry. *)
Inductive error : Type :=
| KeyError (key : string)
| MetricNotFound (metric : string)
| LabelNotUnique (label : string).

Inductive result (A : Type) : Type :=
| Ok (a : A)
| Raise (e : error).
Arguments Ok {A} a.
Arguments Raise {A} e.

(** ** The two source tables *)

(** A row of the fight-records table ([mma_wtclass.csv]), with the
    columns that the functions below read.  [round] is [None] when the
    cell is missing or is not a number. *)
Record fight : Type := Fight {
  p1_name : cell;
  p2_name : cell;
  p1_result : cell;
  p2_result : cell;
  decision_group : cell;
  wtClass : cell;
  round : option Z
}.

(** A row of the fighter-statistics table ([UFC_stats.csv]) after
    [load_ufc_stats]: the name and the numeric columns, NaN as [None]. *)
Module Stat.
Record t : Type := Make {
  fighter_name : string;
  Str_Acc_Pct : option Q;
  TD_Acc_Pct : option Q;
  Str_Def_Pct : option Q;
  TD_Def_Pct : option Q;
  SLpM : option Q;
  TD_Avg : option Q;
  Sub_Avg : option Q
}.
End Stat.

(** ** Counting: [value_counts] and [groupby(...).size()] *)

Section Counting.
Context {K : Type} `{EqDecision K}.

(** The number of occurrences of [k]. *)
Definition count (k : K) (l : list K) : nat :=
  length (filter (λ x, x = k) l).

(** One pair per distinct key, with its number of occurrences, in the
    order of first occurrence. *)
Definition groups (l : list K) : list (K * nat) :=
  (λ k, (k, count k l)) <$> remove_dups l.

(** More frequent first. *)
Definition by_count_desc (a b : K * nat) : Prop := b.2 ≤ a.2.

#[global] Instance by_count_desc_dec a b : Decision (by_count_desc a b).
Proof. unfold by_count_desc. apply _. Defined.

(** [value_counts()] on keys from which the missing ones have been
    dropped: the groups, the most frequent first.  pandas does not fix
    the order among groups of equal count; the sort here is stable. *)
Definition value_counts (l : list K) : list (K * nat) :=
  merge_sort by_count_desc (groups l).
End Counting.

(** The string of a cell that is not missing ([dropna]). *)
Definition present (x : cell) : option string :=
  match x with CStr s => Some s | _ => None end.

(** ** The outcome of a fight *)

(** [str(x).strip().upper() if pd.notna(x) else ''], the expression that
    gives [p1_res] and [p2_res] in both scans. *)
Definition result_code (x : cell) : string :=
  if notna x then
    match x with CStr s => Py.upper (Py.strip s) | _ => "" end
  else "".

Definition is_W (code : string) : bool := String.eqb code "W".

(** ** The per-fighter tallies of [fighter_summary] *)

(** The eight [defaultdict(int)] of [fighter_summary], by name. *)
Inductive counter : Type :=
| total_fights | total_wins
| wins_ko | wins_sub | wins_dec | wins_dq | wins_other
| wins_round1.

#[global] Instance counter_eq_dec : EqDecision counter.
Proof. solve_decision. Defined.

Abbreviation tallies := (counter → gmap string nat).

(** [d.get(k, 0)] *)
Definition get0 (d : gmap string nat) (k : string) : nat := default 0 (d !! k).

(** [d[k] += 1] on a [defaultdict(int)] *)
Definition incr (k : string) (d : gmap string nat) : gmap string nat :=
  <[k := S (get0 d k)]> d.

(** [c[k] += 1] for the tally named [c]. *)
Definition bump (c : counter) (k : string) (t : tallies) : tallies :=
  λ c', if decide (c' = c) then incr k (t c') else t c'.

Definition no_tallies : tallies := λ _, ∅.

(** The tally that a win by [method] goes to: the chain
    [if method == 'KO/TKO' ... elif ... else]. *)
Definition method_counter (method : cell) : counter :=
  if cell_is method "KO/TKO" then wins_ko
  else if cell_is method "Submission" then wins_sub
  else if cell_is method "Decision" then wins_dec
  else if cell_is method "DQ" then wins_dq
  else wins_other.

(** The body of either branch of the winner test, for the winner
    [fighter]: the two branches are the same text up to the name. *)
Definition credit_win (fighter : string) (row : fight) (t : tallies) : tallies :=
  let t := bump total_wins fighter t in
  let t := if bool_decide (round row = Some 1%Z)
           then bump wins_round1 fighter t else t in
  bump (method_counter (decision_group row)) fighter t.

(** One iteration of the scan [for _, row in df_wt.iterrows()]. *)
Definition summary_step (t : tallies) (row : fight) : tallies :=
  let fighter1 := _normalize_name (p1_name row) in
  let fighter2 := _normalize_name (p2_name row) in
  let t := match fighter1 with
           | Some f1 => bump total_fights f1 t
           | None => t
           end in
  let t := match fighter2 with
           | Some f2 => bump total_fights f2 t
           | None => t
           end in
  let p1_res := result_code (p1_result row) in
  let p2_res := result_code (p2_result row) in
  match is_W p1_res, fighter1 with
  | true, Some f1 => credit_win f1 row t
  | _, _ =>
      match is_W p2_res, fighter2 with
      | true, Some f2 => credit_win f2 row t
      | _, _ => t
      end
  end.

(** The tallies after the whole scan. *)
Definition scan (df_wt : list fight) : tallies :=
  foldl summary_step no_tallies df_wt.

(** ** [fighter_summary] *)

Module Summary.
(** The dict [row] built for a fighter: the columns of [summary_df]. *)
Record counts : Type := Counts {
  fighter_name : string;
  total_fights : nat;
  total_wins : nat;
  win_percent : Q;
  wins_ko : nat;
  wins_sub : nat;
  wins_dec : nat;
  wins_dq : nat;
  wins_other : nat;
  wins_round1 : nat
}.

(** A row of the table that [fighter_summary] returns: the counts, the
    six [_pct] columns (NaN as [None]) and the five columns joined from
    the statistics table. *)
Record t : Type := Make {
  base : counts;
  wins_ko_pct : option Q;
  wins_sub_pct : option Q;
  wins_dec_pct : option Q;
  wins_dq_pct : option Q;
  wins_other_pct : option Q;
  wins_round1_pct : option Q;
  TD_Acc_Pct : option Q;
  Str_Acc_Pct : option Q;
  SLpM : option Q;
  TD_Avg : option Q;
  Sub_Avg : option Q
}.
End Summary.

(** [fighters]: the keys of [total_fights] and the names of the
    statistics table, as a set. *)
Definition fighters_of (t : tallies) (df_stats : list Stat.t) : gset string :=
  dom (t total_fights) ∪ list_to_set (Stat.fighter_name <$> df_stats).

(** The dict [row] of a fighter. *)
Definition counts_row (t : tallies) (fighter : string) : Summary.counts :=
  let tf := get0 (t total_fights) fighter in
  let tw := get0 (t total_wins) fighter in
  {| Summary.fighter_name := fighter;
     Summary.total_fights := tf;
     Summary.total_wins := tw;
     Summary.win_percent := if 0 <? tf then percent_of tw tf else 0%Q;
     Summary.wins_ko := get0 (t wins_ko) fighter;
     Summary.wins_sub := get0 (t wins_sub) fighter;
     Summary.wins_dec := get0 (t wins_dec) fighter;
     Summary.wins_dq := get0 (t wins_dq) fighter;
     Summary.wins_other := get0 (t wins_other) fighter;
     Summary.wins_round1 := get0 (t wins_round1) fighter |}.

(** [col / total_wins.replace(0, np.nan) * 100] on one row. *)
Definition pct_of_wins (col tw : nat) : option Q :=
  if tw =? 0 then None else Some (percent_of col tw).

(** A row of [summary_df] with its [_pct] columns, joined with a row of
    the statistics table, or with none ([how='left']). *)
Definition joined (c : Summary.counts) (s : option Stat.t) : Summary.t :=
  let tw := Summary.total_wins c in
  {| Summary.base := c;
     Summary.wins_ko_pct := pct_of_wins (Summary.wins_ko c) tw;
     Summary.wins_sub_pct := pct_of_wins (Summary.wins_sub c) tw;
     Summary.wins_dec_pct := pct_of_wins (Summary.wins_dec c) tw;
     Summary.wins_dq_pct := pct_of_wins (Summary.wins_dq c) tw;
     Summary.wins_other_pct := pct_of_wins (Summary.wins_other c) tw;
     Summary.wins_round1_pct := pct_of_wins (Summary.wins_round1 c) tw;
     Summary.TD_Acc_Pct := s ≫= Stat.TD_Acc_Pct;
     Summary.Str_Acc_Pct := s ≫= Stat.Str_Acc_Pct;
     Summary.SLpM := s ≫= Stat.SLpM;
     Summary.TD_Avg := s ≫= Stat.TD_Avg;
     Summary.Sub_Avg := s ≫= Stat.Sub_Avg |}.

(** [summary_df.merge(stats_subset, how='left', on='fighter_name')] for
    one row of [summary_df]: one output row per row of the statistics
    table with that name, and one with missing statistics when there is
    none. *)
Definition merge_row (df_stats : list Stat.t) (c : Summary.counts)
  : list Summary.t :=
  match filter (λ s, Stat.fighter_name s = Summary.fighter_name c)
               df_stats with
  | [] => [joined c None]
  | matches => (λ s, joined c (Some s)) <$> matches
  end.

(** [fighter_summary].  The rows follow the iteration order of the set
    [fighters], which Python does not fix; here it is that of [elements].
    With no fighter at all [pd.DataFrame(rows)] has no column, and the
    first [summary_df[col]] raises [KeyError]. *)
Definition fighter_summary (df_wt : list fight) (df_stats : list Stat.t)
  : result (list Summary.t) :=
  let t := scan df_wt in
  let fighters := fighters_of t df_stats in
  let rows := counts_row t <$> elements fighters in
  match rows with
  | [] => Raise (KeyError "wins_ko")
  | _ => Ok (rows ≫= merge_row df_stats)
  end.

(** ** [fighter_wins_by_category_and_method] *)

(** A dict appended to [records]. *)
Record win_record : Type := WinRecord {
  wr_fighter_name : string;
  wr_wtClass : cell;
  wr_metodo : cell
}.

(** The truth value of [normalized] in [if normalized:]. *)
Definition truthy_name (n : option string) : bool :=
  match n with
  | Some s => negb (String.eqb s "")
  | None => false
  end.

(** One iteration of the scan: the dict appended for [row], if any. *)
Definition wins_step (row : fight) : list win_record :=
  let method := decision_group row in
  let weight_class := wtClass row in
  let p1_res := result_code (p1_result row) in
  let p2_res := result_code (p2_result row) in
  let winner :=
    if is_W p1_res then p1_name row
    else if is_W p2_res then p2_name row
    else CNone in
  if truthy winner then
    let normalized := _normalize_name winner in
    if truthy_name normalized then
      match normalized with
      | Some n => [WinRecord n weight_class method]
      | None => []
      end
    else []
  else [].

(** [records] after the scan. *)
Definition win_records (df_wt : list fight) : list win_record :=
  df_wt ≫= wins_step.

(** A table of win counts: its column labels and its rows
    (fighter_name, wtClass, metodo, wins). *)
Record wins_frame : Type := WinsFrame {
  columns : list string;
  rows : list (string * string * string * nat)
}.

(** The key of a record in [value_counts(['fighter_name', 'wtClass',
    'metodo'])]; a record with a missing weight class or method has none
    and is dropped ([dropna=True], the default). *)
Definition win_key (r : win_record) : option (string * string * string) :=
  match present (wr_wtClass r), present (wr_metodo r) with
  | Some w, Some m => Some (wr_fighter_name r, w, m)
  | _, _ => None
  end.

Definition fighter_wins_by_category_and_method (df_wt : list fight) : wins_frame :=
  let records := win_records df_wt in
  match records with
  | [] => WinsFrame ["fighter_name"; "wtClass"; "metodo"; "wins"] []
  | _ =>
      WinsFrame ["fighter_name"; "wtClass"; "metodo"; "wins"]
                (value_counts (omap win_key records))
  end.

(** ** [win_percentages_by_method] *)

Module MethodRow.
Record t : Type := Make {
  metodo : string;
  quantidade : nat;
  percentual : Q
}.
End MethodRow.

(** Larger percentage first ([sort_values('percentual', ascending=False)]). *)
Definition by_percent_desc (a b : MethodRow.t) : Prop :=
  Qle_bool (MethodRow.percentual b) (MethodRow.percentual a) = true.

#[global] Instance by_percent_desc_dec a b : Decision (by_percent_desc a b).
Proof. unfold by_percent_desc. apply _. Defined.

(** [df_wt['decision_group'].value_counts()] counts the cells that are not
    missing ([dropna=True], the default); the denominator is the sum of
    the column of counts. *)
Definition win_percentages_by_method (df_wt : list fight) : list MethodRow.t :=
  let counts := value_counts (omap present (decision_group <$> df_wt)) in
  let total := sum_list (snd <$> counts) in
  let counts :=
    (λ kq, MethodRow.Make kq.1 kq.2 (percent_of kq.2 total)) <$> counts in
  merge_sort by_percent_desc counts.

(** ** [win_percentages_by_weight_and_method] *)

Module ClassRow.
Record t : Type := Make {
  wtClass : string;
  metodo : string;
  quantidade : nat;
  percentual : Q
}.
End ClassRow.

(** The key of a fight in [groupby(['wtClass', 'decision_group'])]; a
    fight with a missing weight class or method is in no group. *)
Definition class_key (row : fight) : option (string * string) :=
  match present (wtClass row), present (decision_group row) with
  | Some w, Some m => Some (w, m)
  | _, _ => None
  end.

(** The order of the groups: by weight class, then by method. *)
Definition key_le (a b : (string * string) * nat) : Prop :=
  match String.compare a.1.1 b.1.1 with
  | Lt => True
  | Eq => String.leb a.1.2 b.1.2 = true
  | Gt => False
  end.

#[global] Instance key_le_dec a b : Decision (key_le a b).
Proof. unfold key_le. destruct (String.compare _ _); apply _. Defined.

(** [grouped]: the size of every group, in the order of the keys. *)
Definition grouped_sizes (df_wt : list fight) : list ((string * string) * nat) :=
  merge_sort key_le (groups (omap class_key df_wt)).

(** [grouped.groupby('wtClass')['quantidade'].transform('sum')] at a row
    of weight class [w]: the sum of the sizes of the groups of [w]. *)
Definition class_total (grouped : list ((string * string) * nat)) (w : string) : nat :=
  sum_list (snd <$> filter (λ g, g.1.1 = w) grouped).

Definition win_percentages_by_weight_and_method (df_wt : list fight)
  : list ClassRow.t :=
  let grouped := grouped_sizes df_wt in
  (λ g, ClassRow.Make g.1.1 g.1.2 g.2
          (percent_of g.2 (class_total grouped g.1.1))) <$> grouped.

(** ** [summary_fighter_stats] *)

(** The values of a numeric column that are not NaN. *)
Definition valid (xs : list (option Q)) : list Q := omap id xs.

Definition Qle_b (a b : Q) : Prop := Qle_bool a b = true.

#[global] Instance Qle_b_dec a b : Decision (Qle_b a b).
Proof. unfold Qle_b. apply _. Defined.

(** [Series.mean()] of pandas with its default [skipna=True]: the mean of
    the values that are not NaN, and NaN when there is none. *)
Definition mean (xs : list (option Q)) : option Q :=
  match valid xs with
  | [] => None
  | v => Some (Qsum v / Qnat (length v))%Q
  end.


(** The columns of the statistics table. *)
Inductive metric : Type :=
| MStr_Acc_Pct | MTD_Acc_Pct | MStr_Def_Pct | MTD_Def_Pct
| MSLpM | MTD_Avg | MSub_Avg.

#[global] Instance metric_eq_dec : EqDecision metric.
Proof. solve_decision. Defined.



(** ** [top_fighters_by_metric] *)

(** [top_fighters_by_metric] reaches a column through its label, so for
    this function the statistics table is kept as the map from its column
    labels to its columns; the labels of a table read by [read_csv] are
    distinct.  A column holds strings or numbers, with missing cells. *)
Inductive value : Type :=
| VStr (s : string)
| VNum (q : Q).

Inductive column : Type :=
| ColStr (l : list (option string))
| ColNum (l : list (option Q)).

Definition cells (c : column) : list (option value) :=
  match c with
  | ColStr l => (λ x : option string, VStr <$> x) <$> l
  | ColNum l => (λ x : option Q, VNum <$> x) <$> l
  end.

Abbreviation table := (gmap string column).

(** Larger value first ([ascending=False]). *)
Definition value_desc (a b : value * value) : Prop :=
  match a.2, b.2 with
  | VNum x, VNum y => Qle_bool y x = true
  | VStr x, VStr y => String.leb y x = true
  | _, _ => True
  end.

#[global] Instance value_desc_dec a b : Decision (value_desc a b).
Proof. unfold value_desc. destruct a.2, b.2; apply _. Defined.

(** [.dropna()] on the two selected columns: the rows with both cells. *)
Definition dropna2 (names vals : list (option value)) : list (value * value) :=
  omap (λ nv, n ← nv.1; v ← nv.2; Some (n, v)) (zip names vals).

(** [.head(n)]: the first [n] rows, all but the last [-n] when [n] is
    negative. *)
Definition head {A : Type} (n : Z) (l : list A) : list A :=
  if (0 <=? n)%Z then take (Z.to_nat n) l
  else take (length l - Z.to_nat (- n)) l.

(** [top_fighters_by_metric].  The selection [df_stats[['fighter_name',
    metric]]] raises [KeyError] when the table has no [fighter_name]
    column; when [metric] is ['fighter_name'] it yields two columns of
    that label, which [sort_values] refuses with a [ValueError]. *)
Definition top_fighters_by_metric (df_stats : table) (metric : string) (top_n : Z)
  : result (list (value * value)) :=
  match df_stats !! metric with
  | None => Raise (MetricNotFound metric)
  | Some vals =>
      match df_stats !! "fighter_name" with
      | None => Raise (KeyError "fighter_name")
      | Some names =>
          let subset := dropna2 (cells names) (cells vals) in
          if String.eqb metric "fighter_name" then Raise (LabelNotUnique metric)
          else Ok (head top_n (merge_sort value_desc subset))
      end
  end.

(** ** [fights_by_round] and [fights_per_year] *)

(** Smaller key first ([sort_values] on the key column). *)
Definition by_key_asc (a b : Z * nat) : Prop := (a.1 ≤ b.1)%Z.

#[global] Instance by_key_asc_dec a b : Decision (by_key_asc a b).
Proof. unfold by_key_asc. apply _. Defined.

(** [fights_by_round]: the rows (rounds, quantidade).  The cells of
    [round] that are missing are not counted ([value_counts] drops
    them). *)
Definition fights_by_round (df_wt : list fight) : list (Z * nat) :=
  let counts := value_counts (omap round df_wt) in
  merge_sort by_key_asc counts.

(** [fights_per_year]: the rows (ano, quantidade).  The function reads
    the column [year] of the table and nothing else; the table is given
    here by that column, a missing year as [None].  [groupby] leaves the
    missing years out and orders the groups by year, and [sort_values]
    orders them again. *)
Definition fights_per_year (year : list (option Z)) : list (Z * nat) :=
  let counts := merge_sort by_key_asc (groups (omap id year)) in
  merge_sort by_key_asc counts.

(** ** The fighter page and the ranking page of [streamlit_app.py] *)

(** [_normalize_name_local], the copy of the normalizer that
    [plot_fighter_metrics] defines. *)
Definition _normalize_name_local (name : cell) : option string :=
  match name with
  | CNone | CNaN => None
  | CStr s =>
      let name_str := Py.strip s in
      if Py.has_comma name_str then
        let parts := Py.split_comma_1 name_str in
        let last := Py.strip (Py.item parts 0) in
        let first := Py.strip (Py.item parts 1) in
        Some (first +:+ " " +:+ last)
      else Some name_str
  end.

(** [wt_df[col].str.upper() == 'W'] at one row of a column of strings: a
    missing cell stays missing and compares unequal.  The result is not
    trimmed here. *)
Definition upper_is_W (x : cell) : bool :=
  match x with
  | CStr s => String.eqb (Py.upper s) "W"
  | _ => false
  end.

(** [mask1 | mask2] at one row, for the fighter [selected]. *)
Definition page_mask (selected : string) (row : fight) : bool :=
  let mask1 :=
    bool_decide (_normalize_name_local (p1_name row) = Some selected)
    && upper_is_W (p1_result row) in
  let mask2 :=
    bool_decide (_normalize_name_local (p2_name row) = Some selected)
    && upper_is_W (p2_result row) in
  mask1 || mask2.

(** [fighter_wins = wt_df[mask1 | mask2]] *)
Definition fighter_wins (selected : string) (wt_df : list fight) : list fight :=
  filter (λ row, page_mask selected row = true) wt_df.


(** The columns that the menu of [plot_top_fighters] offers
    ([metric_map]), and the call that the page makes for one of them. *)
Definition metric_map : list string :=
  ["Str_Acc_Pct"; "TD_Acc_Pct"; "TD_Avg"; "SLpM"; "Sub_Avg"].

Definition plot_top_fighters (stats_df : table) (metric_col : string)
  : result (list (value * value)) :=
  top_fighters_by_metric stats_df metric_col 10.

(** ** Sample tables *)

(** The fight and the statistics row of the end-to-end scenario of the
    specification. *)
Definition example_fight : fight :=
  Fight (CStr "Doe, John") (CStr "Ann Lee") (CStr "W") (CStr "L")
        (CStr "KO/TKO") (CStr "Lightweight") (Some 2%Z).

Definition example_stat : Stat.t :=
  Stat.Make "John Doe" (Some 50%Q) (Some 30%Q) (Some 55%Q) (Some 60%Q)
            (Some 3%Q) (Some 1%Q) (Some (1 # 2)%Q).

(** The table that [fighter_summary] returns on them, and its row for
    John Doe. *)
Definition example_rows : list Summary.t :=
  Eval vm_compute in
    match fighter_summary [example_fight] [example_stat] with
    | Ok rows => rows
    | Raise _ => []
    end.

Definition example_row : Summary.t :=
  Eval vm_compute in
    joined (counts_row (scan [example_fight]) "John Doe") (Some example_stat).

(** A fight with the result W on both sides and no name on side 1. *)
Definition both_W_fight : fight :=
  Fight CNaN (CStr "Ann Lee") (CStr "W") (CStr "w")
        (CStr "Decision") (CStr "Lightweight") (Some 3%Z).

(** A fight with the result W on both sides and both names. *)
Definition both_W_named_fight : fight :=
  Fight (CStr "Doe, John") (CStr "Ann Lee") (CStr "W") (CStr "W")
        (CStr "Decision") (CStr "Lightweight") (Some 3%Z).

(** ** Notions used to state the properties *)

(** What one fight adds to the tallies.  [credited] is the fighter whose
    win the scan counts; [hits] tells the tallies that a counted win
    goes to; [delta c f row] is what the fight adds to [c[f]]. *)
Definition credited (row : fight) : option string :=
  match is_W (result_code (p1_result row)), _normalize_name (p1_name row) with
  | true, Some f1 => Some f1
  | _, _ =>
      match is_W (result_code (p2_result row)), _normalize_name (p2_name row) with
      | true, Some f2 => Some f2
      | _, _ => None
      end
  end.

Definition hits (c : counter) (row : fight) : bool :=
  match c with
  | total_fights => false
  | total_wins => true
  | wins_round1 => bool_decide (round row = Some 1%Z)
  | _ => bool_decide (c = method_counter (decision_group row))
  end.

Definition ind (b : bool) : nat := if b then 1 else 0.

Definition delta (c : counter) (f : string) (row : fight) : nat :=
  match c with
  | total_fights =>
      ind (bool_decide (_normalize_name (p1_name row) = Some f))
      + ind (bool_decide (_normalize_name (p2_name row) = Some f))
  | _ => ind (bool_decide (credited row = Some f) && hits c row)
  end.





(** The methods of the fights that have one, and the keys of the fights
    that have a weight class and a method: what [value_counts] and
    [groupby] count. *)
Definition methods (df_wt : list fight) : list string :=
  omap present (decision_group <$> df_wt).

Definition class_keys (df_wt : list fight) : list (string * string) :=
  omap class_key df_wt.


(** A fight with no method, and a drawn fight. *)
Definition no_method_fight : fight :=
  Fight (CStr "Roe, Jane") (CStr "Mia Poe") (CStr "W") (CStr "L")
        CNaN (CStr "Lightweight") (Some 1%Z).

Definition drawn_fight : fight :=
  Fight (CStr "Roe, Jane") (CStr "Mia Poe") (CStr "D") (CStr "D")
        (CStr "Decision") (CStr "Lightweight") (Some 3%Z).

(** The table with the four column labels and no row. *)
Definition empty_wins_frame : wins_frame :=
  WinsFrame ["fighter_name"; "wtClass"; "metodo"; "wins"] [].

(** The row of [win_percentages_by_method] for KO/TKO on the sample
    fight and the drawn fight, and the row of
    [win_percentages_by_weight_and_method] for it. *)
Definition example_method_row : MethodRow.t :=
  Eval vm_compute in MethodRow.Make "KO/TKO" 1 (percent_of 1 2).

Definition example_class_row : ClassRow.t :=
  Eval vm_compute in ClassRow.Make "Lightweight" "KO/TKO" 1 (percent_of 1 2).




(** A statistics table with its labels: the names and one metric. *)
Definition example_table : table :=
  <["fighter_name" := ColStr [Some "John Doe"; Some "Ann Lee"]]>
    (<["SLpM" := ColNum [Some 3%Q; Some 2%Q]]> ∅).

(** A fight names [f] on side 1, or on side 2, when the name of that
    side normalizes to [f]. *)
Definition on_side1 (f : string) (row : fight) : Prop :=
  _normalize_name (p1_name row) = Some f.

Definition on_side2 (f : string) (row : fight) : Prop :=
  _normalize_name (p2_name row) = Some f.

#[global] Instance on_side1_dec f row : Decision (on_side1 f row).
Proof. unfold on_side1. apply _. Defined.

#[global] Instance on_side2_dec f row : Decision (on_side2 f row).
Proof. unfold on_side2. apply _. Defined.

(** The order of the rows of [win_percentages_by_weight_and_method]: by
    weight class, then by method. *)
Definition class_row_le (a b : ClassRow.t) : Prop :=
  key_le (ClassRow.wtClass a, ClassRow.metodo a, ClassRow.quantidade a)
         (ClassRow.wtClass b, ClassRow.metodo b, ClassRow.quantidade b).

#[global] Instance fight_eq_dec : EqDecision fight.
Proof. solve_decision. Defined.

(** A result cell is trimmed when it is missing or holds a string with
    no blank at either end. *)
Definition trimmed (x : cell) : Prop :=
  ∀ s, x = CStr s → Py.strip s = s.

(** A fight is clean when its two result cells are trimmed and they are
    not both a win. *)
Definition clean_fight (row : fight) : Prop :=
  trimmed (p1_result row) ∧ trimmed (p2_result row)
  ∧ ¬ (is_W (result_code (p1_result row)) = true
       ∧ is_W (result_code (p2_result row)) = true).

(** [summary_df[summary_df['fighter_name'] == selected].iloc[0]], the row
    that the fighter page reads; [None] stands for the [IndexError] of
    [.iloc[0]] on a selection with no row. *)
Definition summ_row (selected : string) (summary_df : list Summary.t)
  : option Summary.t :=
  filter (λ r, Summary.fighter_name (Summary.base r) = selected) summary_df
  !! 0.

(** * Properties *)

(** ** Strings *)

Section StringFacts.
Import Py.

Lemma isspace_comma : isspace comma = false.
Proof. reflexivity. Qed.

Lemma eqb_comma_space c : Ascii.eqb c comma = true → isspace c = false.
Proof. intros H. apply Ascii.eqb_eq in H. by subst. Qed.

Lemma lstrip_idemp s : lstrip (lstrip s) = lstrip s.
Proof.
  induction s as [|c s IH]; simpl; [done|].
  destruct (isspace c) eqn:E; [done|]. simpl. by rewrite E.
Qed.

Lemma rstrip_idemp s : rstrip (rstrip s) = rstrip s.
Proof.
  induction s as [|c s IH]; simpl; [done|].
  destruct (rstrip s) as [|d t] eqn:E.
  - destruct (isspace c) eqn:Ec; simpl; [done|]. by rewrite Ec.
  - simpl in *. by rewrite IH.
Qed.

Lemma lstrip_rstrip s : lstrip (rstrip s) = rstrip (lstrip s).
Proof.
  induction s as [|c s IH]; simpl; [done|].
  destruct (isspace c) eqn:Ec.
  - destruct (rstrip s) as [|d t] eqn:E.
    + by rewrite <- IH.
    + simpl. rewrite Ec. by rewrite <- IH.
  - simpl. destruct (rstrip s) as [|d t] eqn:E; simpl; by rewrite Ec.
Qed.

Lemma strip_lstrip s : strip (lstrip s) = strip s.
Proof. unfold strip. by rewrite lstrip_idemp. Qed.

Lemma strip_rstrip s : strip (rstrip s) = strip s.
Proof. unfold strip. by rewrite lstrip_rstrip, rstrip_idemp. Qed.

Lemma has_comma_lstrip s : has_comma (lstrip s) = has_comma s.
Proof.
  induction s as [|c s IH]; simpl; [done|].
  destruct (isspace c) eqn:Ec; [|done].
  destruct (Ascii.eqb c comma) eqn:E; [|done].
  apply eqb_comma_space in E. congruence.
Qed.

Lemma has_comma_rstrip s : has_comma (rstrip s) = has_comma s.
Proof.
  induction s as [|c s IH]; simpl; [done|].
  destruct (Ascii.eqb c comma) eqn:E.
  - pose proof (eqb_comma_space _ E) as Hs.
    destruct (rstrip s); rewrite ?Hs; simpl; by rewrite E.
  - destruct (rstrip s) as [|d t] eqn:Er; simpl in *.
    + destruct (isspace c); simpl; rewrite ?E; done.
    + by rewrite E.
Qed.

Lemma has_comma_strip s : has_comma (strip s) = has_comma s.
Proof. unfold strip. by rewrite has_comma_rstrip, has_comma_lstrip. Qed.

(** A string with a comma is a comma-free part, the comma, and a rest;
    [split] gives the two. *)
Lemma split_comma_1_app a b :
  has_comma a = false →
  split_comma_1 (a +:+ String comma b) = [a; b].
Proof.
  induction a as [|c a IH]; simpl; intros H.
  - done.
  - destruct (Ascii.eqb c comma); [done|]. by rewrite IH.
Qed.

Lemma has_comma_app a b : has_comma (a +:+ String comma b) = true.
Proof.
  induction a as [|c a IH]; simpl; [done|].
  by destruct (Ascii.eqb c comma).
Qed.

Lemma has_comma_decompose s :
  has_comma s = true →
  ∃ a b, s = a +:+ String comma b ∧ has_comma a = false.
Proof.
  induction s as [|c s IH]; simpl; [done|].
  destruct (Ascii.eqb c comma) eqn:E.
  - intros _. apply Ascii.eqb_eq in E. subst. by exists "", s.
  - intros (a & b & -> & Ha)%IH. exists (String c a), b. simpl.
    by rewrite E.
Qed.

Lemma lstrip_app_comma a b :
  has_comma a = false →
  lstrip (a +:+ String comma b) = lstrip a +:+ String comma b.
Proof.
  induction a as [|c a IH]; simpl; intros H; [done|].
  destruct (Ascii.eqb c comma); [done|].
  destruct (isspace c); [by apply IH | done].
Qed.

Lemma rstrip_app_comma a b :
  rstrip (a +:+ String comma b) = a +:+ String comma (rstrip b).
Proof.
  induction a as [|c a IH]; simpl.
  - by destruct (rstrip b).
  - rewrite IH. by destruct a.
Qed.

Lemma strip_app_comma a b :
  has_comma a = false →
  strip (a +:+ String comma b) = lstrip a +:+ String comma (rstrip b).
Proof.
  intros H. unfold strip. by rewrite lstrip_app_comma, rstrip_app_comma.
Qed.
End StringFacts.

(** ** The name normalizer *)

Lemma normalize_comma last first :
  Py.has_comma last = false →
  _normalize_name (CStr (last +:+ "," +:+ first))
  = Some (Py.strip first +:+ " " +:+ Py.strip last).
Proof.
  intros H. unfold _normalize_name.
  change ("," +:+ first) with (String Py.comma first).
  rewrite strip_app_comma by done.
  rewrite has_comma_app.
  rewrite split_comma_1_app by (by rewrite has_comma_lstrip).
  unfold Py.item. simpl.
  by rewrite strip_lstrip, strip_rstrip.
Qed.

Lemma normalize_no_comma raw :
  Py.has_comma raw = false →
  _normalize_name (CStr raw) = Some (Py.strip raw).
Proof.
  intros H. unfold _normalize_name. by rewrite has_comma_strip, H.
Qed.

Lemma normalize_refines name : _normalize_name name = normalize_spec name.
Proof.
  destruct name as [| |raw]; [done..|].
  unfold normalize_spec. destruct (Py.has_comma raw) eqn:E.
  - destruct (has_comma_decompose _ E) as (a & b & -> & Ha).
    rewrite split_comma_1_app by done. unfold Py.item. simpl.
    by apply (normalize_comma a b).
  - by apply normalize_no_comma.
Qed.

(** C1. The name normalizer maps [None] and NaN to [None]; a raw string
    with a comma, that is a comma-free part [last], the comma and a rest
    [first], gives the trimmed [first], a space and the trimmed [last]; a
    string with no comma is trimmed and otherwise unchanged.  So the
    function computes what the specification words ([normalize_spec]),
    and the three examples of the specification hold. *)
Theorem normalize_name_correct :
  (∀ name, _normalize_name name = normalize_spec name) ∧
  _normalize_name CNone = None ∧
  _normalize_name CNaN = None ∧
  (∀ last first, Py.has_comma last = false →
     _normalize_name (CStr (last +:+ "," +:+ first))
     = Some (Py.strip first +:+ " " +:+ Py.strip last)) ∧
  (∀ raw, Py.has_comma raw = false →
     _normalize_name (CStr raw) = Some (Py.strip raw)) ∧
  _normalize_name (CStr "Erosa, Julian") = Some "Julian Erosa" ∧
  _normalize_name (CStr "Julian Erosa") = Some "Julian Erosa".
Proof.
  split_and!; try done.
  - apply normalize_refines.
  - apply normalize_comma.
  - apply normalize_no_comma.
Qed.

Lemma normalize_name_correct_witness :
  Py.has_comma "Erosa" = false ∧
  _normalize_name (CStr ("Erosa" +:+ "," +:+ " Julian"))
  = Some (Py.strip " Julian" +:+ " " +:+ Py.strip "Erosa") ∧
  Py.has_comma " Julian Erosa " = false ∧
  _normalize_name (CStr " Julian Erosa ") = Some (Py.strip " Julian Erosa ").
Proof.
  destruct normalize_name_correct as (_ & _ & _ & Hc & Hn & _).
  split_and!.
  - reflexivity.
  - apply (Hc "Erosa" " Julian"). reflexivity.
  - reflexivity.
  - apply (Hn " Julian Erosa "). reflexivity.
Defined.

(** ** The scan of [fighter_summary] *)

Lemma sum_list_cons (x : nat) (l : list nat) :
  sum_list (x :: l) = x + sum_list l.
Proof. reflexivity. Qed.

Lemma get0_incr k d f :
  get0 (incr k d) f = get0 d f + ind (bool_decide (k = f)).
Proof.
  unfold incr, get0, ind. case_bool_decide as E.
  - subst. rewrite lookup_insert_eq. destruct (d !! f); simpl; lia.
  - rewrite lookup_insert_ne by done. destruct (d !! f); simpl; lia.
Qed.

Lemma get0_bump c k (t : tallies) c' f :
  get0 (bump c k t c') f
  = get0 (t c') f + ind (bool_decide (c' = c) && bool_decide (k = f)).
Proof.
  unfold bump. destruct (decide (c' = c)) as [->|Hc].
  - rewrite get0_incr. by rewrite (bool_decide_eq_true_2 (c = c)).
  - rewrite (bool_decide_eq_false_2 _ Hc). simpl. lia.
Qed.

Lemma method_counter_cases m :
  method_counter m ∈ [wins_ko; wins_sub; wins_dec; wins_dq; wins_other].
Proof. unfold method_counter. repeat case_match; set_solver. Qed.

Lemma credit_win_delta w row (t : tallies) c f :
  get0 (credit_win w row t c) f
  = get0 (t c) f + ind (bool_decide (w = f) && hits c row).
Proof.
  unfold credit_win, hits.
  pose proof (method_counter_cases (decision_group row)) as Hm.
  revert Hm. generalize (method_counter (decision_group row)). intros mc Hm.
  set_unfold in Hm.
  destruct (bool_decide (round row = Some 1%Z));
    rewrite !get0_bump;
    destruct (bool_decide (w = f));
    destruct Hm as [->|[->|[->|[->|[->|[]]]]]];
    destruct c; simpl; lia.
Qed.

Lemma summary_step_delta (t : tallies) row c f :
  get0 (summary_step t row c) f = get0 (t c) f + delta c f row.
Proof.
  unfold summary_step, delta, credited.
  destruct (_normalize_name (p1_name row)) as [f1|],
           (_normalize_name (p2_name row)) as [f2|],
           (is_W (result_code (p1_result row))),
           (is_W (result_code (p2_result row)));
    rewrite ?credit_win_delta, ?get0_bump;
    destruct c; simpl;
    repeat (case_bool_decide; simplify_eq); simpl; try lia.
Qed.

Lemma foldl_summary_step_total df_wt : ∀ (t : tallies) c f,
  get0 (foldl summary_step t df_wt c) f
  = get0 (t c) f + sum_list (delta c f <$> df_wt).
Proof.
  induction df_wt as [|row df IH]; intros t c f; [simpl; lia|].
  rewrite fmap_cons, sum_list_cons. cbn [foldl].
  rewrite IH, summary_step_delta. lia.
Qed.

(** After the scan, [c[f]] is the sum of what the fights added. *)
Lemma scan_total df_wt c f :
  get0 (scan df_wt c) f = sum_list (delta c f <$> df_wt).
Proof. unfold scan. by rewrite foldl_summary_step_total. Qed.

(** ** The rows of [fighter_summary] *)

(** Every row that [fighter_summary] returns is the dict of a fighter of
    the set [fighters], with its [_pct] columns, joined with a row of the
    statistics table or with none. *)
Lemma fighter_summary_rows df_wt df_stats rows row :
  fighter_summary df_wt df_stats = Ok rows → row ∈ rows →
  ∃ f s, f ∈ fighters_of (scan df_wt) df_stats
         ∧ row = joined (counts_row (scan df_wt) f) s.
Proof.
  unfold fighter_summary. intros Hrows Hrow.
  destruct (counts_row (scan df_wt) <$>
              elements (fighters_of (scan df_wt) df_stats)) as [|c0 l] eqn:El;
    [done|].
  assert (rows = (c0 :: l) ≫= merge_row df_stats) as -> by congruence.
  rewrite <- El in Hrow.
  apply list_elem_of_bind in Hrow as (c & Hrow & Hc).
  apply list_elem_of_fmap in Hc as (f & -> & Hf).
  apply elem_of_elements in Hf. exists f.
  unfold merge_row in Hrow.
  destruct (filter _ df_stats) as [|s0 ms].
  - apply list_elem_of_singleton in Hrow. by exists None.
  - apply list_elem_of_fmap in Hrow as (s & -> & _). by exists (Some s).
Qed.

(** [fighter_summary] returns as soon as there is one fighter. *)
Lemma fighter_summary_returns df_wt df_stats f :
  f ∈ fighters_of (scan df_wt) df_stats →
  ∃ rows, fighter_summary df_wt df_stats = Ok rows.
Proof.
  intros Hf. unfold fighter_summary.
  destruct (counts_row (scan df_wt) <$>
              elements (fighters_of (scan df_wt) df_stats)) as [|c0 l] eqn:El;
    [|by eexists].
  apply fmap_nil_inv in El. apply elements_empty_inv in El. set_solver.
Qed.

(** A fighter of the set has a row. *)
Lemma fighter_summary_has_row df_wt df_stats rows f :
  fighter_summary df_wt df_stats = Ok rows →
  f ∈ fighters_of (scan df_wt) df_stats →
  ∃ row, row ∈ rows ∧ Summary.fighter_name (Summary.base row) = f.
Proof.
  unfold fighter_summary. intros Hrows Hf.
  destruct (counts_row (scan df_wt) <$>
              elements (fighters_of (scan df_wt) df_stats)) as [|c0 l] eqn:El;
    [done|].
  assert (rows = (c0 :: l) ≫= merge_row df_stats) as -> by congruence.
  rewrite <- El.
  assert (∃ row, row ∈ merge_row df_stats (counts_row (scan df_wt) f)
                 ∧ Summary.fighter_name (Summary.base row) = f)
    as (row & Hrow & Hn).
  { unfold merge_row. destruct (filter _ df_stats) as [|s0 ms].
    - eexists. split; [apply list_elem_of_singleton; reflexivity|done].
    - exists (joined (counts_row (scan df_wt) f) (Some s0)).
      split; [|done]. rewrite fmap_cons. apply list_elem_of_here. }
  exists row. split; [|done].
  apply list_elem_of_bind. exists (counts_row (scan df_wt) f).
  split; [done|]. apply list_elem_of_fmap. exists f.
  split; [done|]. by apply elem_of_elements.
Qed.

(** A counted win goes to exactly one of the five method tallies. *)
Lemma delta_methods f row :
  delta wins_ko f row + delta wins_sub f row + delta wins_dec f row
  + delta wins_dq f row + delta wins_other f row
  = delta total_wins f row.
Proof.
  unfold delta, hits.
  pose proof (method_counter_cases (decision_group row)) as Hm.
  revert Hm. generalize (method_counter (decision_group row)). intros mc Hm.
  set_unfold in Hm.
  destruct (bool_decide (credited row = Some f));
    destruct Hm as [->|[->|[->|[->|[->|[]]]]]]; reflexivity.
Qed.

Lemma scan_methods df_wt f :
  get0 (scan df_wt wins_ko) f + get0 (scan df_wt wins_sub) f
  + get0 (scan df_wt wins_dec) f + get0 (scan df_wt wins_dq) f
  + get0 (scan df_wt wins_other) f
  = get0 (scan df_wt total_wins) f.
Proof.
  rewrite !scan_total.
  induction df_wt as [|row df IH]; [done|].
  rewrite !fmap_cons, !sum_list_cons.
  pose proof (delta_methods f row). lia.
Qed.

(** C10. In every row that [fighter_summary] returns, the five
    per-method win counts add up to the total win count; a method that is
    none of the four named ones, a missing one included, goes to the
    tally [wins_other]. *)
Theorem method_wins_sum_to_total df_wt df_stats :
  (∀ rows row,
     fighter_summary df_wt df_stats = Ok rows → row ∈ rows →
     let c := Summary.base row in
     Summary.wins_ko c + Summary.wins_sub c + Summary.wins_dec c
     + Summary.wins_dq c + Summary.wins_other c = Summary.total_wins c) ∧
  (∀ method,
     method ∉ [CStr "KO/TKO"; CStr "Submission"; CStr "Decision"; CStr "DQ"] →
     method_counter method = wins_other).
Proof.
  split.
  - intros rows row Hrows Hrow.
    destruct (fighter_summary_rows _ _ _ _ Hrows Hrow) as (f & s & _ & ->).
    simpl. apply scan_methods.
  - intros method Hm. unfold method_counter, cell_is.
    destruct method as [| |m]; [done..|].
    destruct (String.eqb_spec m "KO/TKO") as [->|_]; [set_solver|].
    destruct (String.eqb_spec m "Submission") as [->|_]; [set_solver|].
    destruct (String.eqb_spec m "Decision") as [->|_]; [set_solver|].
    destruct (String.eqb_spec m "DQ") as [->|_]; [set_solver|].
    done.
Qed.

Lemma method_wins_sum_to_total_witness :
  (let c := Summary.base example_row in
   Summary.wins_ko c + Summary.wins_sub c + Summary.wins_dec c
   + Summary.wins_dq c + Summary.wins_other c = Summary.total_wins c)
  ∧ method_counter CNaN = wins_other.
Proof.
  destruct (method_wins_sum_to_total [example_fight] [example_stat])
    as [Hsum Hother].
  split.
  - apply (Hsum example_rows example_row).
    + vm_compute. reflexivity.
    + apply list_elem_of_further, list_elem_of_here.
  - apply (Hother CNaN). rewrite !not_elem_of_cons.
    split_and!; [discriminate..|apply not_elem_of_nil].
Defined.

(** C5. In every row that [fighter_summary] returns, [win_percent] is
    [total_wins / total_fights * 100] when the fighter has a fight and 0
    when there is none, and every per-method percentage is
    [wins / total_wins * 100] when the fighter has a win and is missing
    (NaN) when there is none.  The function returns, with a row for every
    fighter, as soon as one fighter is named in either table. *)
Theorem fighter_summary_percentages df_wt df_stats :
  (∀ f, f ∈ fighters_of (scan df_wt) df_stats →
     ∃ rows, fighter_summary df_wt df_stats = Ok rows
             ∧ ∃ row, row ∈ rows
                      ∧ Summary.fighter_name (Summary.base row) = f) ∧
  (∀ rows row,
     fighter_summary df_wt df_stats = Ok rows → row ∈ rows →
     let c := Summary.base row in
     let tf := Summary.total_fights c in
     let tw := Summary.total_wins c in
     (0 < tf → Summary.win_percent c = (Qnat tw / Qnat tf * 100)%Q) ∧
     (tf = 0 → Summary.win_percent c = 0%Q) ∧
     (0 < tw →
        Summary.wins_ko_pct row
        = Some (Qnat (Summary.wins_ko c) / Qnat tw * 100)%Q ∧
        Summary.wins_sub_pct row
        = Some (Qnat (Summary.wins_sub c) / Qnat tw * 100)%Q ∧
        Summary.wins_dec_pct row
        = Some (Qnat (Summary.wins_dec c) / Qnat tw * 100)%Q ∧
        Summary.wins_dq_pct row
        = Some (Qnat (Summary.wins_dq c) / Qnat tw * 100)%Q ∧
        Summary.wins_other_pct row
        = Some (Qnat (Summary.wins_other c) / Qnat tw * 100)%Q) ∧
     (tw = 0 →
        Summary.wins_ko_pct row = None ∧ Summary.wins_sub_pct row = None ∧
        Summary.wins_dec_pct row = None ∧ Summary.wins_dq_pct row = None ∧
        Summary.wins_other_pct row = None)).
Proof.
  split.
  - intros f Hf.
    destruct (fighter_summary_returns _ _ _ Hf) as [rows Hrows].
    exists rows. split; [done|]. by eapply fighter_summary_has_row.
  - intros rows row Hrows Hrow.
    destruct (fighter_summary_rows _ _ _ _ Hrows Hrow) as (f & s & _ & ->).
    simpl. unfold pct_of_wins.
    split_and!.
    + intros Htf. apply Nat.ltb_lt in Htf. by rewrite Htf.
    + intros ->. done.
    + intros Htw.
      destruct (Nat.eqb_spec (get0 (scan df_wt total_wins) f) 0); [lia|].
      done.
    + intros ->. done.
Qed.

Lemma fighter_summary_percentages_witness :
  (∃ rows, fighter_summary [example_fight] [example_stat] = Ok rows
           ∧ ∃ row, row ∈ rows
                    ∧ Summary.fighter_name (Summary.base row) = "Ann Lee") ∧
  Summary.win_percent (Summary.base example_row) = (Qnat 1 / Qnat 1 * 100)%Q ∧
  Summary.wins_ko_pct example_row = Some (Qnat 1 / Qnat 1 * 100)%Q.
Proof.
  destruct (fighter_summary_percentages [example_fight] [example_stat])
    as [Hret Hpct].
  assert (fighter_summary [example_fight] [example_stat] = Ok example_rows)
    as Hrows by (vm_compute; reflexivity).
  assert (example_row ∈ example_rows) as Hrow
    by apply list_elem_of_further, list_elem_of_here.
  destruct (Hpct example_rows example_row Hrows Hrow) as (Hwp & _ & Hm & _).
  split_and!.
  - apply (Hret "Ann Lee"). unfold fighters_of.
    apply elem_of_union. left. apply elem_of_dom.
    exists 1. vm_compute. reflexivity.
  - apply Hwp. vm_compute. lia.
  - apply Hm. vm_compute. lia.
Defined.

(** ** A record with the result W on both sides *)

(** What one fight adds to the tallies of wins, for any fight: only the
    fighter [credited] gains, and one win. *)
Lemma summary_step_credits (t : tallies) row c f :
  c ≠ total_fights →
  get0 (summary_step t row c) f
  = get0 (t c) f + ind (bool_decide (credited row = Some f) && hits c row).
Proof.
  intros Hc. rewrite summary_step_delta. by destruct c.
Qed.

Lemma credited_both_W row :
  is_W (result_code (p1_result row)) = true →
  is_W (result_code (p2_result row)) = true →
  credited row = match _normalize_name (p1_name row) with
                 | Some f1 => Some f1
                 | None => _normalize_name (p2_name row)
                 end.
Proof.
  intros H1 H2. unfold credited. rewrite H1, H2.
  by destruct (_normalize_name (p1_name row)), (_normalize_name (p2_name row)).
Qed.

Lemma wins_step_both_W row r :
  is_W (result_code (p1_result row)) = true →
  r ∈ wins_step row →
  _normalize_name (p1_name row) = Some (wr_fighter_name r).
Proof.
  intros H1. unfold wins_step. rewrite H1.
  destruct (truthy (p1_name row)); [|by intros ?%elem_of_nil].
  destruct (_normalize_name (p1_name row)) as [n|]; simpl;
    [|by intros ?%elem_of_nil].
  destruct (negb (String.eqb n "")); [|by intros ?%elem_of_nil].
  by intros ->%list_elem_of_singleton.
Qed.

Lemma wins_step_length row : length (wins_step row) ≤ 1.
Proof.
  unfold wins_step. repeat case_match; simpl; lia.
Qed.

(** C2, as the code has it.  For a record with the result W on both
    sides each scan counts the win for at most one side.  The scan of
    [fighter_summary] counts it for side 1 when side 1 has a name, for
    side 2 when side 1 has no name and side 2 has one, and for nobody
    when neither has; no tally of wins changes for anybody else.  The
    scan of [fighter_wins_by_category_and_method] appends at most one
    record, and only for side 1. *)
Theorem both_W_counted_once row (t : tallies) :
  is_W (result_code (p1_result row)) = true →
  is_W (result_code (p2_result row)) = true →
  let winner := match _normalize_name (p1_name row) with
                | Some f1 => Some f1
                | None => _normalize_name (p2_name row)
                end in
  (∀ f, get0 (summary_step t row total_wins) f
        = get0 (t total_wins) f + ind (bool_decide (winner = Some f))) ∧
  (∀ c f, c ≠ total_fights → winner ≠ Some f →
          get0 (summary_step t row c) f = get0 (t c) f) ∧
  (∀ c f, c ≠ total_fights →
          get0 (summary_step t row c) f ≤ get0 (t c) f + 1) ∧
  (∀ r, r ∈ wins_step row →
        _normalize_name (p1_name row) = Some (wr_fighter_name r)) ∧
  length (wins_step row) ≤ 1.
Proof.
  intros H1 H2 winner.
  pose proof (credited_both_W row H1 H2) as Hcr. fold winner in Hcr.
  split_and!.
  - intros f. rewrite summary_step_credits by done. rewrite Hcr. simpl.
    by rewrite andb_true_r.
  - intros c f Hc Hf. rewrite summary_step_credits by done. rewrite Hcr.
    rewrite (bool_decide_eq_false_2 _ Hf). simpl. lia.
  - intros c f Hc. rewrite summary_step_credits by done.
    destruct (_ && _); simpl; lia.
  - intros r. by apply wins_step_both_W.
  - apply wins_step_length.
Qed.

Lemma both_W_counted_once_witness :
  get0 (summary_step no_tallies both_W_named_fight total_wins) "John Doe"
  = get0 (no_tallies total_wins) "John Doe" + 1
  ∧ get0 (summary_step no_tallies both_W_named_fight total_wins) "Ann Lee"
    = get0 (no_tallies total_wins) "Ann Lee" + 0
  ∧ length (wins_step both_W_named_fight) ≤ 1.
Proof.
  destruct (both_W_counted_once both_W_named_fight no_tallies)
    as (Hw & _ & _ & _ & Hl); [reflexivity..|].
  split_and!.
  - apply (Hw "John Doe").
  - apply (Hw "Ann Lee").
  - apply Hl.
Defined.

(** C2 as stated fails: with the result W on both sides and no name on
    side 1, the scan of [fighter_summary] counts the win for side 2. *)
Lemma both_W_counts_side_2 :
  is_W (result_code (p1_result both_W_fight)) = true
  ∧ is_W (result_code (p2_result both_W_fight)) = true
  ∧ _normalize_name (p1_name both_W_fight) = None
  ∧ _normalize_name (p2_name both_W_fight) = Some "Ann Lee"
  ∧ get0 (scan [both_W_fight] total_wins) "Ann Lee" = 1
  ∧ ∃ rows row,
      fighter_summary [both_W_fight] [] = Ok rows ∧ row ∈ rows
      ∧ Summary.fighter_name (Summary.base row) = "Ann Lee"
      ∧ Summary.total_wins (Summary.base row) = 1.
Proof.
  split_and!; try (vm_compute; reflexivity).
  eexists _, _. split; [vm_compute; reflexivity|].
  split; [apply list_elem_of_here|]. split; reflexivity.
Qed.

(** ** Counting *)

Section CountingFacts.
Context {K : Type} `{EqDecision K}.

Lemma length_filter_split (A B C : K → Prop)
    `{∀ x, Decision (A x)} `{∀ x, Decision (B x)} `{∀ x, Decision (C x)} l :
  (∀ x, A x ↔ B x ∨ C x) → (∀ x, B x → C x → False) →
  length (filter A l) = length (filter B l) + length (filter C l).
Proof.
  intros HA Hdis. induction l as [|x l IH]; [done|].
  rewrite !filter_cons.
  destruct (decide (A x)) as [Ha|Ha], (decide (B x)) as [Hb|Hb],
           (decide (C x)) as [Hc|Hc]; simpl; rewrite IH; try lia;
    exfalso; pose proof (HA x); pose proof (Hdis x); tauto.
Qed.

Lemma length_filter_none (A : K → Prop) `{∀ x, Decision (A x)} l :
  (∀ x, ¬ A x) → length (filter A l) = 0.
Proof.
  intros HA. induction l as [|x l IH]; [done|].
  rewrite filter_cons. by destruct (decide (A x)) as [?%HA|].
Qed.

Lemma length_filter_iff (A B : K → Prop)
    `{∀ x, Decision (A x)} `{∀ x, Decision (B x)} l :
  (∀ x, x ∈ l → A x ↔ B x) →
  length (filter A l) = length (filter B l).
Proof.
  induction l as [|x l IH]; intros HAB; [done|].
  rewrite !filter_cons.
  assert (A x ↔ B x) as Hx by (apply HAB; left).
  assert (length (filter A l) = length (filter B l)) as Hl
    by (apply IH; intros y Hy; apply HAB; by right).
  destruct (decide (A x)), (decide (B x)); simpl; rewrite ?Hl; try done;
    exfalso; tauto.
Qed.

Context (P : K → Prop) `{∀ k, Decision (P k)}.

Lemma sum_counts_NoDup (ks l : list K) :
  NoDup ks →
  sum_list ((filter (λ g, P g.1) ((λ k, (k, count k l)) <$> ks)).*2)
  = length (filter (λ x, P x ∧ x ∈ ks) l).
Proof.
  induction 1 as [|k ks Hk Hks IH].
  - simpl. symmetry. apply length_filter_none. intros x [_ []%elem_of_nil].
  - rewrite fmap_cons, filter_cons.
    rewrite (length_filter_split _ (λ x, P x ∧ x = k) (λ x, P x ∧ x ∈ ks)).
    + rewrite <- IH. simpl.
      destruct (decide (P k)) as [Hp|Hp].
      * rewrite fmap_cons, sum_list_cons. simpl. f_equal.
        unfold count. apply length_filter_iff.
        intros x _. split; [intros ->; tauto|tauto].
      * rewrite length_filter_none by (by intros x [? ->]). done.
    + intros x. rewrite elem_of_cons. tauto.
    + intros x [_ ->] [_ ?]. done.
Qed.

(** The counts of the groups that satisfy [P] add up to the number of
    keys that satisfy [P]. *)
Lemma sum_groups_filter (l : list K) :
  sum_list ((filter (λ g, P g.1) (groups l)).*2) = length (filter P l).
Proof.
  unfold groups. rewrite sum_counts_NoDup by apply NoDup_remove_dups.
  apply length_filter_iff. intros x Hx.
  rewrite elem_of_remove_dups. tauto.
Qed.

(** The same for a test on the groups that only looks at the key. *)
Lemma sum_groups_filter_key (Q : K * nat → Prop) `{∀ g, Decision (Q g)}
    (l : list K) :
  (∀ g, Q g ↔ P g.1) →
  sum_list ((filter Q (groups l)).*2) = length (filter P l).
Proof.
  intros HQ. rewrite (list_filter_iff Q (λ g, P g.1)) by done.
  apply sum_groups_filter.
Qed.

Lemma elem_of_groups (l : list K) g :
  g ∈ groups l ↔ g.1 ∈ l ∧ g.2 = count g.1 l.
Proof.
  unfold groups. rewrite list_elem_of_fmap. split.
  - intros (k & -> & Hk). rewrite elem_of_remove_dups in Hk. by split.
  - intros [Hk Hc]. exists g.1. rewrite elem_of_remove_dups.
    split; [|done]. destruct g; simpl in *; by subst.
Qed.

Lemma count_pos (k : K) l : k ∈ l → 0 < count k l.
Proof.
  unfold count. intros Hk.
  assert (k ∈ filter (λ x, x = k) l) as Hin by (by apply list_elem_of_filter).
  destruct (filter _ l); [by apply elem_of_nil in Hin|simpl; lia].
Qed.
End CountingFacts.

(** The counts of all the groups add up to the number of keys. *)
Lemma sum_groups {K : Type} `{EqDecision K} (l : list K) :
  sum_list ((groups l).*2) = length l.
Proof.
  pose proof (sum_groups_filter (λ _, True) l) as Hs.
  assert (∀ A (l : list A), filter (λ _, True) l = l) as Hf.
  { intros A l'. induction l' as [|x l' IH]; [done|].
    rewrite filter_cons. simpl. by rewrite IH. }
  by rewrite !Hf in Hs.
Qed.

(** ** The two views of the wins *)





Lemma wins_rows df_wt :
  rows (fighter_wins_by_category_and_method df_wt)
  = value_counts (omap win_key (win_records df_wt)).
Proof.
  unfold fighter_wins_by_category_and_method.
  by destruct (win_records df_wt).
Qed.






(** ** The table of wins on a table with no win *)

Lemma wins_step_no_W row :
  is_W (result_code (p1_result row)) = false →
  is_W (result_code (p2_result row)) = false →
  wins_step row = [].
Proof. intros H1 H2. unfold wins_step. by rewrite H1, H2. Qed.

Lemma win_records_no_W df_wt :
  Forall (λ row, is_W (result_code (p1_result row)) = false
                 ∧ is_W (result_code (p2_result row)) = false) df_wt →
  win_records df_wt = [].
Proof.
  unfold win_records. induction 1 as [|row df [H1 H2] _ IH]; [done|].
  by rewrite bind_cons, IH, wins_step_no_W.
Qed.

(** C8. On the empty table, and on every table on which the scan records
    no win (so on every table with no result W), the function returns the
    table with the four column labels and no row; it has those four
    column labels on every table. *)
Theorem wins_table_without_wins :
  fighter_wins_by_category_and_method [] = empty_wins_frame ∧
  (∀ df_wt, win_records df_wt = [] →
     fighter_wins_by_category_and_method df_wt = empty_wins_frame) ∧
  (∀ df_wt,
     Forall (λ row, is_W (result_code (p1_result row)) = false
                    ∧ is_W (result_code (p2_result row)) = false) df_wt →
     fighter_wins_by_category_and_method df_wt = empty_wins_frame) ∧
  (∀ df_wt,
     columns (fighter_wins_by_category_and_method df_wt)
     = ["fighter_name"; "wtClass"; "metodo"; "wins"]).
Proof.
  assert (∀ df_wt, win_records df_wt = [] →
            fighter_wins_by_category_and_method df_wt = empty_wins_frame) as He.
  { intros df_wt E. unfold fighter_wins_by_category_and_method. by rewrite E. }
  split_and!; [done|done| |].
  - intros df_wt Hdf. by apply He, win_records_no_W.
  - intros df_wt. unfold fighter_wins_by_category_and_method.
    by destruct (win_records df_wt).
Qed.

Lemma wins_table_without_wins_witness :
  fighter_wins_by_category_and_method [drawn_fight] = empty_wins_frame.
Proof.
  destruct wins_table_without_wins as (_ & _ & Hno & _).
  apply (Hno [drawn_fight]). repeat constructor.
Defined.

(** ** Percentages *)

Lemma Qnat_add a b : Qnat (a + b) = (Qnat a + Qnat b)%Q.
Proof. unfold Qnat. by rewrite Nat2Z.inj_add, inject_Z_plus. Qed.

Lemma Qnat_nonzero n : 0 < n → ¬ (Qnat n == 0)%Q.
Proof.
  intros Hn. unfold Qnat, Qeq. simpl. lia.
Qed.

Lemma percent_of_add a b d :
  (percent_of (a + b) d == percent_of a d + percent_of b d)%Q.
Proof.
  unfold percent_of. rewrite Qnat_add. unfold Qdiv. ring.
Qed.

Lemma percent_of_zero d : (percent_of 0 d == 0)%Q.
Proof. unfold percent_of, Qdiv. change (Qnat 0) with 0%Q. ring. Qed.

Lemma percent_of_all n : 0 < n → (percent_of n n == 100)%Q.
Proof.
  intros Hn. unfold percent_of. field. by apply Qnat_nonzero.
Qed.

(** The percentages of some counts over one denominator add up to the
    percentage of their sum. *)
Lemma Qsum_percent (ns : list nat) d :
  (Qsum ((λ n, percent_of n d) <$> ns) == percent_of (sum_list ns) d)%Q.
Proof.
  induction ns as [|n ns IH].
  - simpl. symmetry. apply percent_of_zero.
  - rewrite fmap_cons, sum_list_cons, percent_of_add. simpl.
    by rewrite IH.
Qed.


(** ** [win_percentages_by_method] *)

Lemma method_counts_total df_wt :
  sum_list ((value_counts (methods df_wt)).*2) = length (methods df_wt).
Proof.
  unfold value_counts. rewrite merge_sort_Permutation. apply sum_groups.
Qed.

Lemma method_rows df_wt row :
  row ∈ win_percentages_by_method df_wt →
  ∃ g, g ∈ groups (methods df_wt)
       ∧ row = MethodRow.Make g.1 g.2 (percent_of g.2 (length (methods df_wt))).
Proof.
  unfold win_percentages_by_method. fold (methods df_wt).
  rewrite merge_sort_Permutation, method_counts_total.
  intros (g & -> & Hg)%list_elem_of_fmap.
  unfold value_counts in Hg. rewrite merge_sort_Permutation in Hg.
  by exists g.
Qed.

(** C6, as the code has it.  In every row of the table, the count is the
    number of fights with that method, and the percentage is that count
    over the number of fights that have a method (a missing method is
    counted in no row and not in the denominator), times 100.  On a
    table in which every fight has a method the denominator is the
    number of all the fights. *)
Theorem method_percent_of_fights_with_method df_wt :
  (∀ row, row ∈ win_percentages_by_method df_wt →
     MethodRow.quantidade row = count (MethodRow.metodo row) (methods df_wt)
     ∧ MethodRow.percentual row
       = (Qnat (MethodRow.quantidade row) / Qnat (length (methods df_wt))
          * 100)%Q) ∧
  (Forall (λ row, notna (decision_group row) = true) df_wt →
   length (methods df_wt) = length df_wt).
Proof.
  split.
  - intros row (g & Hg & ->)%method_rows.
    apply elem_of_groups in Hg as [_ Hg]. simpl. by split.
  - unfold methods. induction 1 as [|row df Hrow _ IH]; [done|].
    destruct (decision_group row) as [| |m] eqn:E; [done..|].
    rewrite fmap_cons, E. simpl. f_equal. exact IH.
Qed.

Lemma method_percent_of_fights_with_method_witness :
  (MethodRow.quantidade example_method_row
   = count (MethodRow.metodo example_method_row)
           (methods [example_fight; drawn_fight])
   ∧ MethodRow.percentual example_method_row
     = (Qnat (MethodRow.quantidade example_method_row)
        / Qnat (length (methods [example_fight; drawn_fight])) * 100)%Q)
  ∧ length (methods [example_fight; drawn_fight])
    = length [example_fight; drawn_fight].
Proof.
  destruct (method_percent_of_fights_with_method [example_fight; drawn_fight])
    as [Hrow Hall].
  split.
  - apply (Hrow example_method_row). vm_compute. apply list_elem_of_here.
  - apply Hall. repeat constructor.
Defined.

(** C6 as stated fails: of two fights, one with no method, the method of
    the other gets 100 percent, not 1 of 2. *)
Lemma method_percent_not_of_all_fights :
  ∃ row,
    row ∈ win_percentages_by_method [example_fight; no_method_fight]
    ∧ MethodRow.quantidade row = 1
    ∧ length [example_fight; no_method_fight] = 2
    ∧ (MethodRow.percentual row == 100)%Q
    ∧ ¬ (MethodRow.percentual row
         == Qnat (MethodRow.quantidade row)
            / Qnat (length [example_fight; no_method_fight]) * 100)%Q.
Proof.
  eexists. split; [vm_compute; apply list_elem_of_here|].
  split_and!; [reflexivity..|]. vm_compute. discriminate.
Qed.

(** ** [win_percentages_by_weight_and_method] *)

Lemma grouped_sizes_perm df_wt :
  grouped_sizes df_wt ≡ₚ groups (class_keys df_wt).
Proof. unfold grouped_sizes. apply merge_sort_Permutation. Qed.

(** The denominator of a weight class: the number of its fights that
    have a method. *)
Lemma class_total_keys df_wt w :
  class_total (grouped_sizes df_wt) w
  = length (filter (λ k, k.1 = w) (class_keys df_wt)).
Proof.
  unfold class_total. rewrite grouped_sizes_perm.
  by apply (sum_groups_filter_key (λ k : string * string, k.1 = w)).
Qed.






(** ** [summary_fighter_stats] *)




Lemma mean_is_Some xs : valid xs ≠ [] → is_Some (mean xs).
Proof. unfold mean. by destruct (valid xs). Qed.









(** ** [top_fighters_by_metric] *)

(** C9, as the code has it.  For a metric that is no column of the table
    the function raises the error of its guard, before anything else,
    and it raises that error for no other metric.  For a metric that is
    a column other than [fighter_name], on a table that has the column
    [fighter_name], it returns.  For the metric [fighter_name] itself
    the sort raises. *)
Theorem top_fighters_raises_or_returns (df_stats : table) metric top_n :
  (df_stats !! metric = None →
     top_fighters_by_metric df_stats metric top_n
     = Raise (MetricNotFound metric)) ∧
  (is_Some (df_stats !! metric) →
     top_fighters_by_metric df_stats metric top_n
     ≠ Raise (MetricNotFound metric)) ∧
  (is_Some (df_stats !! metric) → is_Some (df_stats !! "fighter_name") →
     metric ≠ "fighter_name" →
     ∃ top, top_fighters_by_metric df_stats metric top_n = Ok top) ∧
  (is_Some (df_stats !! metric) → metric = "fighter_name" →
     top_fighters_by_metric df_stats metric top_n
     = Raise (LabelNotUnique "fighter_name")).
Proof.
  unfold top_fighters_by_metric. split_and!.
  - by intros ->.
  - intros [vals ->].
    destruct (df_stats !! "fighter_name"); [|done].
    by destruct (String.eqb metric "fighter_name").
  - intros [vals ->] [names ->] Hne.
    apply String.eqb_neq in Hne. rewrite Hne. by eexists.
  - intros [vals Hv] ->. by rewrite Hv.
Qed.

Lemma top_fighters_raises_or_returns_witness :
  top_fighters_by_metric example_table "Reach" 10 = Raise (MetricNotFound "Reach")
  ∧ (∃ top, top_fighters_by_metric example_table "SLpM" 10 = Ok top).
Proof.
  split.
  - destruct (top_fighters_raises_or_returns example_table "Reach" 10)
      as (Hraise & _).
    apply Hraise. vm_compute. reflexivity.
  - destruct (top_fighters_raises_or_returns example_table "SLpM" 10)
      as (_ & _ & Hret & _).
    apply Hret.
    + exists (ColNum [Some 3%Q; Some 2%Q]). vm_compute. reflexivity.
    + exists (ColStr [Some "John Doe"; Some "Ann Lee"]). vm_compute.
      reflexivity.
    + discriminate.
Defined.

(** C9 as stated fails: [fighter_name] is a column of the table, and the
    function does not return for it. *)
Lemma top_fighters_raises_on_name_column :
  is_Some (example_table !! "fighter_name")
  ∧ top_fighters_by_metric example_table "fighter_name" 10
    = Raise (LabelNotUnique "fighter_name")
  ∧ ¬ ∃ top, top_fighters_by_metric example_table "fighter_name" 10 = Ok top.
Proof.
  split_and!.
  - eexists. vm_compute. reflexivity.
  - vm_compute. reflexivity.
  - intros [top Htop]. vm_compute in Htop. discriminate Htop.
Qed.

(** * Further properties of the code *)

(** ** Trimming and normalizing twice *)

Lemma strip_idemp s : Py.strip (Py.strip s) = Py.strip s.
Proof.
  unfold Py.strip. by rewrite lstrip_rstrip, lstrip_idemp, rstrip_idemp.
Qed.

Lemma has_comma_append a b :
  Py.has_comma (a +:+ b) = Py.has_comma a || Py.has_comma b.
Proof.
  induction a as [|c a IH]; simpl; [done|].
  by destruct (Ascii.eqb c Py.comma).
Qed.

Lemma lstrip_stripped s : Py.lstrip (Py.strip s) = Py.strip s.
Proof. unfold Py.strip. by rewrite lstrip_rstrip, lstrip_idemp. Qed.

Lemma rstrip_stripped s : Py.rstrip (Py.strip s) = Py.strip s.
Proof. unfold Py.strip. by rewrite rstrip_idemp. Qed.

(** Leading blanks are only taken from a first part that is blank. *)
Lemma lstrip_append a b :
  a ≠ "" → Py.lstrip a = a → Py.lstrip (a +:+ b) = a +:+ b.
Proof.
  destruct a as [|c a]; [done|]. simpl. intros _ Hl.
  destruct (Py.isspace c) eqn:Ec; [|done].
  exfalso. assert (String.length (Py.lstrip a) ≤ String.length a) as Hlen.
  { clear. induction a as [|d a IH]; simpl; [lia|].
    destruct (Py.isspace d); simpl; lia. }
  rewrite Hl in Hlen. simpl in Hlen. lia.
Qed.

(** Trailing blanks are only taken from a last part that is blank. *)
Lemma rstrip_append a b :
  Py.rstrip b ≠ "" → Py.rstrip (a +:+ b) = a +:+ Py.rstrip b.
Proof.
  intros Hb. induction a as [|c a IH]; [done|].
  change (String c a +:+ b) with (String c (a +:+ b)).
  change (String c a +:+ Py.rstrip b) with (String c (a +:+ Py.rstrip b)).
  cbn [Py.rstrip]. rewrite IH.
  destruct (a +:+ Py.rstrip b) eqn:E; [|done].
  destruct a; [done|discriminate].
Qed.

Lemma strip_first_last f l :
  Py.strip f ≠ "" → Py.strip l ≠ "" →
  Py.strip (Py.strip f +:+ " " +:+ Py.strip l)
  = Py.strip f +:+ " " +:+ Py.strip l.
Proof.
  intros Hf Hl. unfold Py.strip at 1.
  rewrite lstrip_append by (done || apply lstrip_stripped).
  assert (Py.rstrip (" " +:+ Py.strip l) = " " +:+ Py.strip l) as Hr.
  { change (" " +:+ Py.strip l) with (String " " (Py.strip l)).
    cbn [Py.rstrip]. rewrite rstrip_stripped.
    by destruct (Py.strip l). }
  rewrite rstrip_append; rewrite Hr; [done|].
  by change (" " +:+ Py.strip l) with (String " " (Py.strip l)).
Qed.

(** X1. A name with no comma is normalized once and for all: the result
    has no blank at either end, and normalizing it again gives it
    back. *)
Theorem normalize_idempotent_without_comma raw n :
  Py.has_comma raw = false →
  _normalize_name (CStr raw) = Some n →
  Py.strip n = n ∧ _normalize_name (CStr n) = Some n.
Proof.
  intros Hc. rewrite normalize_no_comma by done. intros [= <-].
  split; [apply strip_idemp|].
  rewrite normalize_no_comma by (by rewrite has_comma_strip).
  by rewrite strip_idemp.
Qed.

Lemma normalize_idempotent_without_comma_witness :
  Py.strip "Julian Erosa" = "Julian Erosa"
  ∧ _normalize_name (CStr "Julian Erosa") = Some "Julian Erosa".
Proof.
  apply (normalize_idempotent_without_comma "  Julian Erosa ").
  - reflexivity.
  - reflexivity.
Defined.

(** X2. A name ["Last, First"] with one comma and two parts that are
    not blank is normalized once and for all as well: the result
    ["First Last"] has no comma, and normalizing it again gives it
    back. *)
Theorem normalize_idempotent_last_first last first :
  Py.has_comma last = false → Py.has_comma first = false →
  Py.strip last ≠ "" → Py.strip first ≠ "" →
  let n := Py.strip first +:+ " " +:+ Py.strip last in
  _normalize_name (CStr (last +:+ "," +:+ first)) = Some n
  ∧ Py.has_comma n = false
  ∧ _normalize_name (CStr n) = Some n.
Proof.
  intros Hl Hf Hnl Hnf n.
  assert (Py.has_comma n = false) as Hn.
  { unfold n. rewrite !has_comma_append, !has_comma_strip, Hl, Hf. done. }
  split_and!; [by apply normalize_comma|done|].
  rewrite normalize_no_comma by done. unfold n.
  by rewrite strip_first_last.
Qed.

Lemma normalize_idempotent_last_first_witness :
  _normalize_name (CStr ("Erosa" +:+ "," +:+ " Julian")) = Some "Julian Erosa"
  ∧ Py.has_comma "Julian Erosa" = false
  ∧ _normalize_name (CStr "Julian Erosa") = Some "Julian Erosa".
Proof.
  apply (normalize_idempotent_last_first "Erosa" " Julian");
    (reflexivity || discriminate).
Defined.

(** ** Result codes *)

Lemma upper_char_W c :
  Py.upper_char c = "W"%char ↔ c = "W"%char ∨ c = "w"%char.
Proof.
  destruct c as [[] [] [] [] [] [] [] []]; vm_compute;
    (split; [intros H; first [discriminate H | by left | by right]
            |intros [H|H]; first [discriminate H | reflexivity]]).
Qed.

Lemma upper_W t : Py.upper t = "W" ↔ t = "W" ∨ t = "w".
Proof.
  destruct t as [|c [|d t]]; simpl.
  - split; [discriminate|by intros [|]].
  - split.
    + intros [= H]. apply upper_char_W in H as [->| ->]; [by left|by right].
    + intros [[= ->]|[= ->]]; reflexivity.
  - split; [discriminate|by intros [|]].
Qed.

(** X3. A result cell counts as a win in the two scans exactly when it
    holds a string that, once trimmed, is ["W"] or ["w"]: the test is
    blind to case and to blanks around the code, and a missing cell is
    never a win. *)
Theorem result_is_win_iff x :
  is_W (result_code x) = true
  ↔ ∃ s, x = CStr s ∧ (Py.strip s = "W" ∨ Py.strip s = "w").
Proof.
  unfold is_W, result_code. destruct x as [| |s]; simpl.
  - split; [discriminate|by intros (s & ? & _)].
  - split; [discriminate|by intros (s & ? & _)].
  - rewrite String.eqb_eq, upper_W. split.
    + intros H. by exists s.
    + by intros (s' & [= <-] & H).
Qed.

(** ** The counts of [fighter_summary] *)

Lemma sum_ind_filter {A : Type} (P : A → Prop) `{∀ x, Decision (P x)} l :
  sum_list ((λ x, ind (bool_decide (P x))) <$> l) = length (filter P l).
Proof.
  induction l as [|x l IH]; [done|].
  rewrite fmap_cons, sum_list_cons, filter_cons, IH.
  by destruct (decide (P x)) as [Hx|Hx];
    [rewrite bool_decide_eq_true_2|rewrite bool_decide_eq_false_2].
Qed.

Lemma sum_list_add {A : Type} (f g : A → nat) l :
  sum_list ((λ x, f x + g x) <$> l) = sum_list (f <$> l) + sum_list (g <$> l).
Proof.
  induction l as [|x l IH]; [done|].
  rewrite !fmap_cons, !sum_list_cons, IH. lia.
Qed.

Lemma sum_list_le {A : Type} (f g : A → nat) l :
  (∀ x, f x ≤ g x) → sum_list (f <$> l) ≤ sum_list (g <$> l).
Proof.
  intros Hfg. induction l as [|x l IH]; [done|].
  rewrite !fmap_cons, !sum_list_cons. specialize (Hfg x). lia.
Qed.

(** X4. In every row that [fighter_summary] returns, the number of
    fights is the number of records that name the fighter on side 1 plus
    the number that name the fighter on side 2 (after normalizing), the
    number of wins is the number of records whose win the scan counts
    for the fighter, and the wins in round 1 are those of them whose
    round is 1. *)
Theorem summary_counts df_wt df_stats rows row :
  fighter_summary df_wt df_stats = Ok rows → row ∈ rows →
  let c := Summary.base row in
  let f := Summary.fighter_name c in
  Summary.total_fights c
  = length (filter (on_side1 f) df_wt) + length (filter (on_side2 f) df_wt)
  ∧ Summary.total_wins c = length (filter (λ r, credited r = Some f) df_wt)
  ∧ Summary.wins_round1 c
    = length (filter (λ r, credited r = Some f ∧ round r = Some 1%Z) df_wt).
Proof.
  intros Hrows Hrow.
  destruct (fighter_summary_rows _ _ _ _ Hrows Hrow) as (f & s & _ & ->).
  simpl. rewrite !scan_total. split_and!.
  - unfold delta. rewrite sum_list_add.
    by rewrite (sum_ind_filter (on_side1 f)), (sum_ind_filter (on_side2 f)).
  - rewrite <- (sum_ind_filter (λ r, credited r = Some f)).
    f_equal. apply list_fmap_ext. intros i r _. unfold delta, hits.
    by rewrite andb_true_r.
  - rewrite <- (sum_ind_filter (λ r, credited r = Some f ∧ round r = Some 1%Z)).
    f_equal. apply list_fmap_ext. intros i r _. unfold delta, hits.
    f_equal. apply eq_true_iff_eq.
    rewrite andb_true_iff, !bool_decide_eq_true. done.
Qed.

Lemma summary_counts_witness :
  let c := Summary.base example_row in
  let f := Summary.fighter_name c in
  Summary.total_fights c
  = length (filter (on_side1 f) [example_fight])
    + length (filter (on_side2 f) [example_fight])
  ∧ Summary.total_wins c
    = length (filter (λ r, credited r = Some f) [example_fight])
  ∧ Summary.wins_round1 c
    = length (filter (λ r, credited r = Some f ∧ round r = Some 1%Z)
                     [example_fight]).
Proof.
  apply (summary_counts [example_fight] [example_stat] example_rows).
  - vm_compute. reflexivity.
  - apply list_elem_of_further, list_elem_of_here.
Defined.

Lemma delta_wins_le_fights f row :
  delta total_wins f row ≤ delta total_fights f row.
Proof.
  unfold delta, hits, credited. rewrite andb_true_r.
  destruct (is_W (result_code (p1_result row))),
           (is_W (result_code (p2_result row))),
           (_normalize_name (p1_name row)) as [f1|],
           (_normalize_name (p2_name row)) as [f2|];
    repeat case_bool_decide; simplify_eq; simpl; lia.
Qed.

Lemma delta_round1_le_wins f row :
  delta wins_round1 f row ≤ delta total_wins f row.
Proof.
  unfold delta, hits. rewrite andb_true_r.
  destruct (bool_decide (credited row = Some f)),
           (bool_decide (round row = Some 1%Z)); simpl; lia.
Qed.

Lemma percent_of_bounds n d :
  n ≤ d → 0 < d → (0 <= percent_of n d)%Q ∧ (percent_of n d <= 100)%Q.
Proof.
  intros Hn Hd. unfold percent_of.
  assert (0 < Qnat d)%Q as Hq by (unfold Qnat, Qlt; simpl; lia).
  assert (0 <= Qnat n)%Q as Hq0 by (unfold Qnat, Qle; simpl; lia).
  assert (Qnat n <= Qnat d)%Q as Hle by (unfold Qnat, Qle; simpl; lia).
  split.
  - apply Qmult_le_0_compat; [|done].
    apply Qle_shift_div_l; [done|]. by rewrite Qmult_0_l.
  - apply Qle_trans with (1 * 100)%Q; [|done].
    apply Qmult_le_compat_r; [|done].
    apply Qle_shift_div_r; [done|]. by rewrite Qmult_1_l.
Qed.

(** X5. In every row that [fighter_summary] returns, the wins are at
    most the fights, the wins in round 1 and the wins of each method are
    at most the wins, and the win percentage lies between 0 and 100. *)
Theorem summary_bounds df_wt df_stats rows row :
  fighter_summary df_wt df_stats = Ok rows → row ∈ rows →
  let c := Summary.base row in
  Summary.total_wins c ≤ Summary.total_fights c
  ∧ Summary.wins_round1 c ≤ Summary.total_wins c
  ∧ Forall (λ n, n ≤ Summary.total_wins c)
           [Summary.wins_ko c; Summary.wins_sub c; Summary.wins_dec c;
            Summary.wins_dq c; Summary.wins_other c]
  ∧ (0 <= Summary.win_percent c)%Q ∧ (Summary.win_percent c <= 100)%Q.
Proof.
  intros Hrows Hrow.
  destruct (fighter_summary_rows _ _ _ _ Hrows Hrow) as (f & s & _ & ->).
  simpl.
  assert (get0 (scan df_wt total_wins) f ≤ get0 (scan df_wt total_fights) f)
    as Hwf.
  { rewrite !scan_total. apply sum_list_le, delta_wins_le_fights. }
  split_and!.
  - done.
  - rewrite !scan_total. apply sum_list_le, delta_round1_le_wins.
  - pose proof (scan_methods df_wt f). repeat constructor; lia.
  - destruct (0 <? get0 (scan df_wt total_fights) f) eqn:E; [|done].
    apply Nat.ltb_lt in E. by apply percent_of_bounds.
  - destruct (0 <? get0 (scan df_wt total_fights) f) eqn:E; [|done].
    apply Nat.ltb_lt in E. by apply percent_of_bounds.
Qed.

Lemma summary_bounds_witness :
  let c := Summary.base example_row in
  Summary.total_wins c ≤ Summary.total_fights c
  ∧ Summary.wins_round1 c ≤ Summary.total_wins c
  ∧ Forall (λ n, n ≤ Summary.total_wins c)
           [Summary.wins_ko c; Summary.wins_sub c; Summary.wins_dec c;
            Summary.wins_dq c; Summary.wins_other c]
  ∧ (0 <= Summary.win_percent c)%Q ∧ (Summary.win_percent c <= 100)%Q.
Proof.
  apply (summary_bounds [example_fight] [example_stat] example_rows).
  - vm_compute. reflexivity.
  - apply list_elem_of_further, list_elem_of_here.
Defined.

(** ** The fighters of [fighter_summary] *)

Lemma credit_win_total_fights w row (t : tallies) :
  credit_win w row t total_fights = t total_fights.
Proof.
  unfold credit_win, bump.
  pose proof (method_counter_cases (decision_group row)) as Hm.
  revert Hm. generalize (method_counter (decision_group row)). intros mc Hm.
  set_unfold in Hm.
  destruct (bool_decide (round row = Some 1%Z));
    destruct Hm as [->|[->|[->|[->|[->|[]]]]]]; reflexivity.
Qed.

Lemma dom_incr k (d : gmap string nat) : dom (incr k d) = {[k]} ∪ dom d.
Proof. unfold incr. apply dom_insert_L. Qed.

Lemma dom_summary_step (t : tallies) row f :
  f ∈ dom (summary_step t row total_fights)
  ↔ f ∈ dom (t total_fights) ∨ on_side1 f row ∨ on_side2 f row.
Proof.
  unfold summary_step, on_side1, on_side2.
  destruct (_normalize_name (p1_name row)) as [f1|],
           (_normalize_name (p2_name row)) as [f2|],
           (is_W (result_code (p1_result row))),
           (is_W (result_code (p2_result row)));
    rewrite ?credit_win_total_fights;
    unfold bump; simpl; rewrite ?dom_incr;
    set_unfold; intuition congruence.
Qed.

Lemma dom_foldl_summary_step df_wt f : ∀ t : tallies,
  f ∈ dom (foldl summary_step t df_wt total_fights)
  ↔ f ∈ dom (t total_fights)
    ∨ ∃ row, row ∈ df_wt ∧ (on_side1 f row ∨ on_side2 f row).
Proof.
  induction df_wt as [|row df IH]; intros t; simpl.
  - split; [by left|]. intros [?|(row & []%elem_of_nil & _)]. done.
  - rewrite IH, dom_summary_step. split.
    + intros [[?|?]|(r & ? & ?)]; [by left|right..].
      * exists row. split; [left|done].
      * exists r. split; [by right|done].
    + intros [?|(r & [->|?]%elem_of_cons & ?)];
        [by left; left|by left; right|right; by exists r].
Qed.

(** The fighters of the summary are the names of the statistics table
    and the normalized names of the two sides of the fights. *)
Lemma elem_of_fighters df_wt df_stats f :
  f ∈ fighters_of (scan df_wt) df_stats
  ↔ (∃ st, st ∈ df_stats ∧ Stat.fighter_name st = f)
    ∨ ∃ row, row ∈ df_wt ∧ (on_side1 f row ∨ on_side2 f row).
Proof.
  unfold fighters_of, scan.
  rewrite elem_of_union, dom_foldl_summary_step, elem_of_list_to_set,
    list_elem_of_fmap.
  unfold no_tallies. rewrite dom_empty_L. set_unfold.
  firstorder congruence.
Qed.

(** X6. [fighter_summary] raises (the [KeyError] of the first
    [summary_df[col]] on a table with no column) when the statistics
    table is empty and no fight has a name on either side, so on two
    empty tables; as soon as the statistics table has a row or a fight
    has a name, it returns a table that is not empty. *)
Theorem fighter_summary_raises_without_fighter df_wt df_stats :
  (df_stats = [] →
   (∀ row, row ∈ df_wt →
      _normalize_name (p1_name row) = None
      ∧ _normalize_name (p2_name row) = None) →
   fighter_summary df_wt df_stats = Raise (KeyError "wins_ko")) ∧
  (∀ f,
     (∃ st, st ∈ df_stats ∧ Stat.fighter_name st = f)
     ∨ (∃ row, row ∈ df_wt ∧ (on_side1 f row ∨ on_side2 f row)) →
     ∃ rows, fighter_summary df_wt df_stats = Ok rows ∧ rows ≠ []).
Proof.
  split.
  - intros -> Hno. unfold fighter_summary.
    assert (fighters_of (scan df_wt) [] = ∅) as ->; [|done].
    apply set_eq. intros f. rewrite elem_of_fighters. split; [|set_solver].
    intros [(st & []%elem_of_nil & _)|(row & Hrow & Hside)].
    destruct (Hno row Hrow) as [H1 H2]. unfold on_side1, on_side2 in Hside.
    rewrite H1, H2 in Hside. by destruct Hside.
  - intros f Hf. apply elem_of_fighters in Hf.
    destruct (fighter_summary_returns _ _ _ Hf) as [rows Hrows].
    exists rows. split; [done|].
    destruct (fighter_summary_has_row _ _ _ _ Hrows Hf) as (row & Hrow & _).
    intros ->. by apply elem_of_nil in Hrow.
Qed.

Lemma fighter_summary_raises_without_fighter_witness :
  fighter_summary [] [] = Raise (KeyError "wins_ko")
  ∧ ∃ rows, fighter_summary [example_fight] [] = Ok rows ∧ rows ≠ [].
Proof.
  split.
  - destruct (fighter_summary_raises_without_fighter [] []) as [Hr _].
    apply Hr; [reflexivity|]. intros row Hrow. by apply elem_of_nil in Hrow.
  - destruct (fighter_summary_raises_without_fighter [example_fight] [])
      as [_ Hok].
    apply (Hok "John Doe"). right. exists example_fight.
    split; [apply list_elem_of_here|]. left. reflexivity.
Defined.

(** X7. The table of [fighter_summary] has a row for a name exactly when
    the name is in the statistics table or is the normalized name of a
    side of a fight. *)
Theorem summary_row_iff_named df_wt df_stats rows f :
  fighter_summary df_wt df_stats = Ok rows →
  (∃ row, row ∈ rows ∧ Summary.fighter_name (Summary.base row) = f)
  ↔ (∃ st, st ∈ df_stats ∧ Stat.fighter_name st = f)
    ∨ (∃ row, row ∈ df_wt ∧ (on_side1 f row ∨ on_side2 f row)).
Proof.
  intros Hrows. rewrite <- elem_of_fighters. split.
  - intros (row & Hrow & <-).
    by destruct (fighter_summary_rows _ _ _ _ Hrows Hrow) as (f & s & Hf & ->).
  - intros Hf. by apply (fighter_summary_has_row df_wt df_stats).
Qed.

Lemma summary_row_iff_named_witness :
  (∃ row, row ∈ example_rows
          ∧ Summary.fighter_name (Summary.base row) = "Ann Lee")
  ↔ (∃ st, st ∈ [example_stat] ∧ Stat.fighter_name st = "Ann Lee")
    ∨ (∃ row, row ∈ [example_fight]
              ∧ (on_side1 "Ann Lee" row ∨ on_side2 "Ann Lee" row)).
Proof.
  apply (summary_row_iff_named [example_fight] [example_stat]).
  vm_compute. reflexivity.
Defined.

(** ** The join with the statistics table *)

Lemma merge_row_cases df_stats c row :
  row ∈ merge_row df_stats c →
  (row = joined c None
   ∧ ∀ st, st ∈ df_stats → Stat.fighter_name st ≠ Summary.fighter_name c)
  ∨ ∃ st, st ∈ df_stats ∧ Stat.fighter_name st = Summary.fighter_name c
          ∧ row = joined c (Some st).
Proof.
  unfold merge_row.
  destruct (filter _ df_stats) as [|s0 ms] eqn:Ef.
  - intros ->%list_elem_of_singleton. left. split; [done|].
    intros st Hst Hname.
    assert (st ∈ filter (λ s, Stat.fighter_name s = Summary.fighter_name c)
                        df_stats)
      as Hin by (by apply list_elem_of_filter).
    rewrite Ef in Hin. by apply elem_of_nil in Hin.
  - intros (st & -> & Hst)%list_elem_of_fmap. right. exists st.
    rewrite <- Ef in Hst. apply list_elem_of_filter in Hst as [? ?]. done.
Qed.

(** X8. The join is a left join on the name: the five statistics of a
    row of the summary are those of a row of the statistics table with
    the same name, and they are all missing when the statistics table has
    no row of that name. *)
Theorem summary_statistics_joined_by_name df_wt df_stats rows row :
  fighter_summary df_wt df_stats = Ok rows → row ∈ rows →
  let f := Summary.fighter_name (Summary.base row) in
  (∃ st, st ∈ df_stats ∧ Stat.fighter_name st = f
         ∧ Summary.TD_Acc_Pct row = Stat.TD_Acc_Pct st
         ∧ Summary.Str_Acc_Pct row = Stat.Str_Acc_Pct st
         ∧ Summary.SLpM row = Stat.SLpM st
         ∧ Summary.TD_Avg row = Stat.TD_Avg st
         ∧ Summary.Sub_Avg row = Stat.Sub_Avg st)
  ∨ ((∀ st, st ∈ df_stats → Stat.fighter_name st ≠ f)
     ∧ Summary.TD_Acc_Pct row = None ∧ Summary.Str_Acc_Pct row = None
     ∧ Summary.SLpM row = None ∧ Summary.TD_Avg row = None
     ∧ Summary.Sub_Avg row = None).
Proof.
  unfold fighter_summary. intros Hrows Hrow.
  destruct (counts_row (scan df_wt) <$>
              elements (fighters_of (scan df_wt) df_stats)) as [|c0 l] eqn:El;
    [done|].
  assert (rows = (c0 :: l) ≫= merge_row df_stats) as -> by congruence.
  apply list_elem_of_bind in Hrow as (c & Hrow & _).
  apply merge_row_cases in Hrow as [[-> Hno]|(st & Hst & Hname & ->)].
  - right. by split_and!.
  - left. exists st. by split_and!.
Qed.

Lemma summary_statistics_joined_by_name_witness :
  let f := Summary.fighter_name (Summary.base example_row) in
  (∃ st, st ∈ [example_stat] ∧ Stat.fighter_name st = f
         ∧ Summary.TD_Acc_Pct example_row = Stat.TD_Acc_Pct st
         ∧ Summary.Str_Acc_Pct example_row = Stat.Str_Acc_Pct st
         ∧ Summary.SLpM example_row = Stat.SLpM st
         ∧ Summary.TD_Avg example_row = Stat.TD_Avg st
         ∧ Summary.Sub_Avg example_row = Stat.Sub_Avg st)
  ∨ ((∀ st, st ∈ [example_stat] → Stat.fighter_name st ≠ f)
     ∧ Summary.TD_Acc_Pct example_row = None
     ∧ Summary.Str_Acc_Pct example_row = None
     ∧ Summary.SLpM example_row = None ∧ Summary.TD_Avg example_row = None
     ∧ Summary.Sub_Avg example_row = None).
Proof.
  apply (summary_statistics_joined_by_name [example_fight] [example_stat]
           example_rows).
  - vm_compute. reflexivity.
  - apply list_elem_of_further, list_elem_of_here.
Defined.

Lemma filter_name_unique df_stats f :
  NoDup (Stat.fighter_name <$> df_stats) →
  length (filter (λ s, Stat.fighter_name s = f) df_stats) ≤ 1.
Proof.
  induction df_stats as [|st l IH]; [simpl; lia|].
  rewrite fmap_cons. intros [Hst Hl]%NoDup_cons.
  rewrite filter_cons. destruct (decide (Stat.fighter_name st = f)) as [<-|];
    [|by apply IH].
  assert (filter (λ s, Stat.fighter_name s = Stat.fighter_name st) l = [])
    as ->; [|simpl; lia].
  destruct (filter _ l) as [|s0 ms] eqn:Ef; [done|].
  assert (s0 ∈ filter (λ s, Stat.fighter_name s = Stat.fighter_name st) l)
    as [Hn Hin]%list_elem_of_filter by (rewrite Ef; left).
  destruct Hst. rewrite <- Hn. by apply list_elem_of_fmap_2.
Qed.

Lemma merge_row_one df_stats c :
  NoDup (Stat.fighter_name <$> df_stats) →
  ∃ s, merge_row df_stats c = [joined c s].
Proof.
  intros Hnd. unfold merge_row.
  pose proof (filter_name_unique df_stats (Summary.fighter_name c) Hnd) as Hlen.
  destruct (filter _ df_stats) as [|s0 [|s1 ms]]; simpl in Hlen.
  - by exists None.
  - by exists (Some s0).
  - lia.
Qed.

Lemma merged_names df_stats cs :
  NoDup (Stat.fighter_name <$> df_stats) →
  (λ r, Summary.fighter_name (Summary.base r)) <$> (cs ≫= merge_row df_stats)
  = Summary.fighter_name <$> cs.
Proof.
  intros Hnd. induction cs as [|c cs IH]; [done|].
  rewrite bind_cons, fmap_app, IH, fmap_cons.
  by destruct (merge_row_one df_stats c Hnd) as [s ->].
Qed.

(** X9. When the names of the statistics table are distinct, the table
    of [fighter_summary] has one row per fighter: the names of its rows
    are distinct, and there are as many rows as fighters. *)
Theorem summary_one_row_per_fighter df_wt df_stats rows :
  NoDup (Stat.fighter_name <$> df_stats) →
  fighter_summary df_wt df_stats = Ok rows →
  NoDup ((λ r, Summary.fighter_name (Summary.base r)) <$> rows)
  ∧ length rows = size (fighters_of (scan df_wt) df_stats).
Proof.
  unfold fighter_summary. intros Hnd Hrows.
  destruct (counts_row (scan df_wt) <$>
              elements (fighters_of (scan df_wt) df_stats)) as [|c0 l] eqn:El;
    [done|].
  assert (rows = (c0 :: l) ≫= merge_row df_stats) as -> by congruence.
  assert ((λ r, Summary.fighter_name (Summary.base r)) <$>
            ((c0 :: l) ≫= merge_row df_stats)
          = elements (fighters_of (scan df_wt) df_stats)) as Hnames.
  { rewrite merged_names by done. rewrite <- El, <- list_fmap_compose.
    apply list_fmap_id. }
  split.
  - rewrite Hnames. apply NoDup_elements.
  - rewrite <- (length_fmap (λ r, Summary.fighter_name (Summary.base r))),
      Hnames.
    done.
Qed.

Lemma summary_one_row_per_fighter_witness :
  NoDup ((λ r, Summary.fighter_name (Summary.base r)) <$> example_rows)
  ∧ length example_rows
    = size (fighters_of (scan [example_fight]) [example_stat]).
Proof.
  apply (summary_one_row_per_fighter [example_fight] [example_stat]).
  - apply NoDup_singleton.
  - vm_compute. reflexivity.
Defined.

(** ** The shape of the tables of counts *)

Lemma groups_keys {K : Type} `{EqDecision K} (l : list K) :
  (groups l).*1 = remove_dups l.
Proof.
  unfold groups. rewrite <- list_fmap_compose. apply list_fmap_id.
Qed.

Lemma groups_positive {K : Type} `{EqDecision K} (l : list K) g :
  g ∈ groups l → 1 ≤ g.2.
Proof. intros [Hin ->]%elem_of_groups. by apply count_pos. Qed.

Lemma Qsum_perm l l' : l ≡ₚ l' → (Qsum l == Qsum l')%Q.
Proof.
  induction 1 as [|x l l' _ IH|x y l|l l' l'' _ IH1 _ IH2]; simpl.
  - reflexivity.
  - by rewrite IH.
  - ring.
  - by rewrite IH1.
Qed.

#[global] Instance by_count_desc_total {K : Type} :
  Total (@by_count_desc K).
Proof. intros a b. unfold by_count_desc. lia. Qed.

#[global] Instance by_count_desc_trans {K : Type} :
  Transitive (@by_count_desc K).
Proof. intros a b c. unfold by_count_desc. lia. Qed.

#[global] Instance by_percent_desc_total : Total by_percent_desc.
Proof.
  intros a b. unfold by_percent_desc. rewrite !Qle_bool_iff.
  destruct (Qlt_le_dec (MethodRow.percentual a) (MethodRow.percentual b));
    [right; by apply Qlt_le_weak|by left].
Qed.

#[global] Instance by_percent_desc_trans : Transitive by_percent_desc.
Proof.
  intros a b c. unfold by_percent_desc. rewrite !Qle_bool_iff.
  intros ? ?. by eapply Qle_trans.
Qed.

#[global] Instance key_le_total : Total key_le.
Proof.
  intros a b. unfold key_le.
  rewrite (String.compare_antisym b.1.1 a.1.1).
  destruct (String.compare a.1.1 b.1.1) eqn:E; simpl; [|by left|by right].
  apply String.compare_eq_iff in E.
  apply String.leb_total.
Qed.

Lemma StronglySorted_mono {A : Type} (R R' : relation A) l :
  (∀ a b, R a b → R' a b) → StronglySorted R l → StronglySorted R' l.
Proof.
  intros HR. induction 1 as [|x l _ IH Hx]; constructor; [done|].
  eapply Forall_impl; [exact Hx|]. intros y. apply HR.
Qed.

Lemma method_rows_perm df_wt :
  win_percentages_by_method df_wt
  ≡ₚ (λ g, MethodRow.Make g.1 g.2 (percent_of g.2 (length (methods df_wt))))
       <$> groups (methods df_wt).
Proof.
  unfold win_percentages_by_method. fold (methods df_wt).
  rewrite merge_sort_Permutation, method_counts_total.
  unfold value_counts. by rewrite merge_sort_Permutation.
Qed.

(** X10. The percentages of [win_percentages_by_method] add up to 100 as
    soon as one fight has a method; when no fight has one, and so on the
    empty table, the result has no row. *)
Theorem method_percentages_sum_to_100 df_wt :
  (methods df_wt ≠ [] →
   (Qsum (MethodRow.percentual <$> win_percentages_by_method df_wt)
    == 100)%Q) ∧
  (methods df_wt = [] → win_percentages_by_method df_wt = []).
Proof.
  split.
  - intros Hm. rewrite (Qsum_perm _ _ (fmap_Permutation _ _ _ (method_rows_perm df_wt))).
    rewrite <- list_fmap_compose.
    change (MethodRow.percentual ∘ _)
      with ((λ n, percent_of n (length (methods df_wt)))
            ∘ (snd : string * nat → nat)).
    rewrite list_fmap_compose, Qsum_percent, sum_groups.
    apply percent_of_all. destruct (methods df_wt); [done|simpl; lia].
  - intros Hm. apply Permutation_nil_r. rewrite method_rows_perm, Hm. done.
Qed.

Lemma method_percentages_sum_to_100_witness :
  (Qsum (MethodRow.percentual <$>
           win_percentages_by_method [example_fight; drawn_fight])
   == 100)%Q
  ∧ win_percentages_by_method [no_method_fight] = [].
Proof.
  split.
  - destruct (method_percentages_sum_to_100 [example_fight; drawn_fight])
      as [Hs _].
    apply Hs. discriminate.
  - destruct (method_percentages_sum_to_100 [no_method_fight]) as [_ He].
    apply He. reflexivity.
Defined.

(** X11. [win_percentages_by_method] has one row for every method that a
    fight has and no other row: the methods of its rows are distinct,
    every count is at least 1 (a method with no fight has no row), and
    the rows are in the order of decreasing percentage. *)
Theorem method_rows_shape df_wt :
  (∀ m, (∃ row, row ∈ win_percentages_by_method df_wt
                ∧ MethodRow.metodo row = m)
        ↔ m ∈ methods df_wt) ∧
  NoDup (MethodRow.metodo <$> win_percentages_by_method df_wt) ∧
  (∀ row, row ∈ win_percentages_by_method df_wt →
          1 ≤ MethodRow.quantidade row) ∧
  StronglySorted
    (λ a b, (MethodRow.percentual b <= MethodRow.percentual a)%Q)
    (win_percentages_by_method df_wt).
Proof.
  assert (MethodRow.metodo <$> win_percentages_by_method df_wt
          ≡ₚ remove_dups (methods df_wt)) as Hkeys.
  { rewrite method_rows_perm, <- list_fmap_compose.
    rewrite <- (groups_keys (methods df_wt)). done. }
  split_and!.
  - intros m. rewrite <- (elem_of_remove_dups (methods df_wt)), <- Hkeys.
    rewrite list_elem_of_fmap. firstorder congruence.
  - rewrite Hkeys. apply NoDup_remove_dups.
  - intros row. rewrite method_rows_perm.
    intros (g & -> & Hg)%list_elem_of_fmap. simpl.
    by apply (groups_positive (methods df_wt)).
  - unfold win_percentages_by_method.
    eapply (StronglySorted_mono by_percent_desc);
      [|apply (StronglySorted_merge_sort by_percent_desc)].
    intros a b. unfold by_percent_desc. by rewrite Qle_bool_iff.
Qed.

Lemma class_rows_perm df_wt :
  win_percentages_by_weight_and_method df_wt
  ≡ₚ (λ g, ClassRow.Make g.1.1 g.1.2 g.2
             (percent_of g.2 (class_total (grouped_sizes df_wt) g.1.1)))
       <$> groups (class_keys df_wt).
Proof.
  unfold win_percentages_by_weight_and_method.
  by rewrite grouped_sizes_perm.
Qed.

(** X12. [win_percentages_by_weight_and_method] has one row for every
    pair of a weight class and a method that a fight has, and no other
    row: the pairs of its rows are distinct, every count is at least 1,
    and the rows follow the order of the weight classes and, within a
    weight class, of the methods. *)
Theorem class_rows_shape df_wt :
  (∀ w m, (∃ row, row ∈ win_percentages_by_weight_and_method df_wt
                  ∧ ClassRow.wtClass row = w ∧ ClassRow.metodo row = m)
          ↔ (w, m) ∈ class_keys df_wt) ∧
  NoDup ((λ row, (ClassRow.wtClass row, ClassRow.metodo row)) <$>
           win_percentages_by_weight_and_method df_wt) ∧
  (∀ row, row ∈ win_percentages_by_weight_and_method df_wt →
          1 ≤ ClassRow.quantidade row) ∧
  Sorted class_row_le (win_percentages_by_weight_and_method df_wt).
Proof.
  assert ((λ row, (ClassRow.wtClass row, ClassRow.metodo row)) <$>
            win_percentages_by_weight_and_method df_wt
          ≡ₚ remove_dups (class_keys df_wt)) as Hkeys.
  { rewrite class_rows_perm, <- list_fmap_compose.
    rewrite <- (groups_keys (class_keys df_wt)).
    erewrite list_fmap_ext; [reflexivity|]. by intros i [[w m] n] _. }
  split_and!.
  - intros w m. rewrite <- (elem_of_remove_dups (class_keys df_wt)), <- Hkeys.
    rewrite list_elem_of_fmap. split.
    + intros (row & Hrow & <- & <-). by exists row.
    + intros (row & [= -> ->] & Hrow). by exists row.
  - rewrite Hkeys. apply NoDup_remove_dups.
  - intros row. rewrite class_rows_perm.
    intros (g & -> & Hg)%list_elem_of_fmap. simpl.
    by apply (groups_positive (class_keys df_wt)).
  - unfold win_percentages_by_weight_and_method.
    eapply Sorted_fmap; [|apply (Sorted_merge_sort key_le)].
    by intros [[w m] n] [[w' m'] n'].
Qed.

(** X13. [fighter_wins_by_category_and_method] has one row for every
    triple of a winner, a weight class and a method among the recorded
    wins that have a weight class and a method: the triples of its rows
    are distinct, the count of a row is the number of those wins with
    that triple and is at least 1, the counts add up to the number of
    those wins, and the rows are in the order of decreasing count. *)
Theorem wins_rows_shape df_wt :
  let keys := omap win_key (win_records df_wt) in
  let table := rows (fighter_wins_by_category_and_method df_wt) in
  (∀ k n, (k, n) ∈ table ↔ k ∈ keys ∧ n = count k keys) ∧
  NoDup (table.*1) ∧
  (∀ k n, (k, n) ∈ table → 1 ≤ n) ∧
  sum_list (table.*2) = length keys ∧
  StronglySorted (λ a b, b.2 ≤ a.2) table.
Proof.
  intros keys table.
  assert (table ≡ₚ groups keys) as Hperm.
  { unfold table. rewrite wins_rows. unfold value_counts.
    apply merge_sort_Permutation. }
  split_and!.
  - intros k n. rewrite Hperm. apply (elem_of_groups keys (k, n)).
  - rewrite Hperm, groups_keys. apply NoDup_remove_dups.
  - intros k n. rewrite Hperm. apply (groups_positive keys (k, n)).
  - rewrite Hperm. apply sum_groups.
  - unfold table. rewrite wins_rows. unfold value_counts.
    apply (StronglySorted_merge_sort by_count_desc).
Qed.

(** ** The ranking of [top_fighters_by_metric] *)

#[global] Instance value_desc_total : Total value_desc.
Proof.
  intros a b. unfold value_desc.
  destruct a.2 as [x|x], b.2 as [y|y]; try by left.
  - destruct (String.leb_total y x); [by left|by right].
  - rewrite !Qle_bool_iff.
    destruct (Qlt_le_dec x y); [right; by apply Qlt_le_weak|by left].
Qed.

Lemma Sorted_take {A : Type} (R : relation A) n l :
  Sorted R l → Sorted R (take n l).
Proof.
  intros Hl. revert n.
  induction Hl as [|x l _ IH Hx]; intros [|n]; simpl; try constructor.
  - apply IH.
  - destruct Hx as [|y l Hxy]; [destruct n; constructor|].
    destruct n; simpl; by constructor.
Qed.

Lemma Sorted_head {A : Type} (R : relation A) n l :
  Sorted R l → Sorted R (head n l).
Proof. intros Hl. unfold head. destruct (0 <=? n)%Z; by apply Sorted_take. Qed.

(** Adjacent order is order between any two rows when the order is
    transitive on the rows of the list. *)
Lemma Sorted_StronglySorted_on {A : Type} (R : relation A) (P : A → Prop) l :
  (∀ x y z, P x → P y → P z → R x y → R y z → R x z) →
  Forall P l → Sorted R l → StronglySorted R l.
Proof.
  intros Htrans HP Hl.
  induction Hl as [|x l _ IH Hx]; [constructor|].
  apply Forall_cons in HP as [Px HP]. specialize (IH HP).
  constructor; [done|].
  destruct Hx as [|y l Hxy]; [constructor|].
  apply StronglySorted_cons in IH as [Hy _].
  apply Forall_cons in HP as [Py HP].
  constructor; [done|].
  rewrite Forall_forall in Hy, HP |- *. intros z Hz.
  by apply (Htrans x y z); auto.
Qed.

Lemma dropna2_rows names vals n v :
  (n, v) ∈ dropna2 names vals
  ↔ ∃ i, names !! i = Some (Some n) ∧ vals !! i = Some (Some v).
Proof.
  unfold dropna2. rewrite list_elem_of_omap. split.
  - intros ([on ov] & Hin & Hsome).
    apply elem_of_lookup_zip_with in Hin as (i & x & y & [= -> ->] & Hx & Hy).
    simpl in Hsome. destruct x as [x|]; [|done].
    destruct y as [y|]; [|done]. simpl in Hsome. injection Hsome as -> ->.
    by exists i.
  - intros (i & Hn & Hv). exists (Some n, Some v). split; [|done].
    apply elem_of_lookup_zip_with. by exists i, (Some n), (Some v).
Qed.

Lemma head_subseteq {A : Type} n (l : list A) x : x ∈ head n l → x ∈ l.
Proof. unfold head. destruct (0 <=? n)%Z; apply subseteq_take. Qed.

Lemma head_length {A : Type} n (l : list A) :
  (0 ≤ n)%Z → length (head n l) = Z.to_nat n `min` length l.
Proof.
  intros Hn. unfold head. apply Z.leb_le in Hn. rewrite Hn.
  apply length_take.
Qed.

(** X14. When [top_fighters_by_metric] returns, every row pairs the name
    and the metric of one row of the table in which neither is missing;
    with [top_n] at least 0 there are [top_n] rows, or all the rows
    with both cells when these are fewer; and the rows are in the order
    of decreasing metric, each with a metric at least that of every row
    after it when the column is numeric. *)
Theorem top_fighters_rows (df_stats : table) metric top_n top names vals :
  top_fighters_by_metric df_stats metric top_n = Ok top →
  df_stats !! "fighter_name" = Some names →
  df_stats !! metric = Some vals →
  (∀ n v, (n, v) ∈ top →
     ∃ i, cells names !! i = Some (Some n) ∧ cells vals !! i = Some (Some v)) ∧
  ((0 ≤ top_n)%Z →
     length top
     = Z.to_nat top_n `min` length (dropna2 (cells names) (cells vals))) ∧
  Sorted value_desc top ∧
  (∀ l, vals = ColNum l → StronglySorted value_desc top).
Proof.
  unfold top_fighters_by_metric. intros Htop Hnames Hvals.
  rewrite Hvals, Hnames in Htop.
  destruct (String.eqb metric "fighter_name"); [done|].
  injection Htop as <-.
  assert (Sorted value_desc
            (head top_n (merge_sort value_desc
                           (dropna2 (cells names) (cells vals))))) as Hsorted
    by apply Sorted_head, (Sorted_merge_sort value_desc).
  split_and!.
  - intros n v Hin%head_subseteq.
    rewrite merge_sort_Permutation in Hin. by apply dropna2_rows.
  - intros Hn. rewrite head_length by done.
    by rewrite merge_sort_Permutation.
  - done.
  - intros l ->.
    apply (Sorted_StronglySorted_on value_desc (λ r, ∃ q, r.2 = VNum q));
      [| |done].
    + intros x y z [qx Hx] [qy Hy] [qz Hz]. unfold value_desc.
      rewrite Hx, Hy, Hz, !Qle_bool_iff. intros ? ?. by eapply Qle_trans.
    + apply Forall_forall. intros [n v] Hin%head_subseteq.
      rewrite merge_sort_Permutation in Hin.
      apply dropna2_rows in Hin as (i & _ & Hv). simpl in Hv.
      rewrite list_lookup_fmap in Hv.
      destruct (l !! i) as [[q|]|]; simplify_eq/=. by exists q.
Qed.

Lemma top_fighters_rows_witness :
  ∃ top,
    top_fighters_by_metric example_table "SLpM" 1 = Ok top
    ∧ length top
      = Z.to_nat 1
        `min` length (dropna2 (cells (ColStr [Some "John Doe"; Some "Ann Lee"]))
                              (cells (ColNum [Some 3%Q; Some 2%Q])))
    ∧ StronglySorted value_desc top.
Proof.
  eexists. split; [vm_compute; reflexivity|].
  edestruct (top_fighters_rows example_table "SLpM" 1) as (_ & Hlen & _ & Hs).
  - vm_compute. reflexivity.
  - vm_compute. reflexivity.
  - vm_compute. reflexivity.
  - split; [apply Hlen; lia|]. by eapply Hs.
Defined.

(** X15. The ranking page never meets an error of
    [top_fighters_by_metric]: for every column of its menu, on a table
    that has the column [fighter_name] and the columns of the menu, the
    call returns, with at most 10 rows. *)
Theorem ranking_page_returns (stats_df : table) metric_col :
  metric_col ∈ metric_map →
  is_Some (stats_df !! "fighter_name") →
  (∀ m, m ∈ metric_map → is_Some (stats_df !! m)) →
  ∃ top, plot_top_fighters stats_df metric_col = Ok top ∧ length top ≤ 10.
Proof.
  intros Hm [names Hnames] Hcols.
  destruct (Hcols metric_col Hm) as [vals Hvals].
  unfold plot_top_fighters, top_fighters_by_metric.
  rewrite Hvals, Hnames.
  assert (String.eqb metric_col "fighter_name" = false) as ->.
  { unfold metric_map in Hm. rewrite !elem_of_cons, elem_of_nil in Hm.
    destruct Hm as [->|[->|[->|[->|[->|[]]]]]]; reflexivity. }
  eexists. split; [done|].
  rewrite head_length by lia. lia.
Qed.

Lemma ranking_page_returns_witness :
  ∃ top, plot_top_fighters
           (<["Str_Acc_Pct" := ColNum [Some 50%Q]]>
              (<["TD_Acc_Pct" := ColNum [Some 30%Q]]>
                 (<["TD_Avg" := ColNum [Some 1%Q]]>
                    (<["Sub_Avg" := ColNum [None]]> example_table))))
           "SLpM" = Ok top
         ∧ length top ≤ 10.
Proof.
  apply ranking_page_returns.
  - unfold metric_map. rewrite !elem_of_cons. tauto.
  - eexists. vm_compute. reflexivity.
  - intros m Hm. unfold metric_map in Hm.
    rewrite !elem_of_cons, elem_of_nil in Hm.
    destruct Hm as [->|[->|[->|[->|[->|[]]]]]];
      eexists; vm_compute; reflexivity.
Defined.

(** ** The tables by round and by year *)

#[global] Instance by_key_asc_total : Total by_key_asc.
Proof. intros a b. unfold by_key_asc. lia. Qed.

#[global] Instance by_key_asc_trans : Transitive by_key_asc.
Proof. intros a b c. unfold by_key_asc. lia. Qed.

Lemma count_present (k : Z) (col : list (option Z)) :
  count k (omap id col) = length (filter (λ c, c = Some k) col).
Proof.
  unfold count. induction col as [|c col IH]; [done|].
  rewrite (filter_cons (λ c, c = Some k)). destruct c as [z|].
  - change (omap id (Some z :: col)) with (z :: omap id col).
    rewrite filter_cons.
    destruct (decide (z = k)), (decide (Some z = Some k));
      simpl; congruence.
  - change (omap id (None :: col)) with (omap id col).
    by destruct (decide (None = Some k)).
Qed.

Lemma length_present (col : list (option Z)) :
  length (omap id col) = length (filter is_Some col).
Proof.
  induction col as [|c col IH]; [done|].
  rewrite filter_cons. destruct c as [z|].
  - change (omap id (Some z :: col)) with (z :: omap id col).
    destruct (decide (is_Some (Some z))) as [|[]]; [|done].
    simpl. by rewrite IH.
  - change (omap id (None :: col)) with (omap id col).
    by destruct (decide (is_Some None)) as [[? ?]|].
Qed.

Lemma strictly_sorted_keys (t : list (Z * nat)) :
  StronglySorted by_key_asc t → NoDup t.*1 →
  StronglySorted (λ a b, (a.1 < b.1)%Z) t.
Proof.
  induction 1 as [|x l _ IH Hx]; [constructor|].
  rewrite fmap_cons. intros [Hnot Hnd]%NoDup_cons.
  constructor; [by apply IH|].
  rewrite Forall_forall in Hx |- *. intros y Hy.
  specialize (Hx y Hy). unfold by_key_asc in Hx.
  destruct (decide (x.1 = y.1)) as [E|]; [|lia].
  destruct Hnot. rewrite E. by apply list_elem_of_fmap_2.
Qed.

(** A table of the numbers of occurrences of the values of a column, in
    the order of the values. *)
Lemma counts_by_key (col : list (option Z)) (t : list (Z * nat)) :
  t ≡ₚ groups (omap id col) → Sorted by_key_asc t →
  StronglySorted (λ a b, (a.1 < b.1)%Z) t
  ∧ (∀ k n, (k, n) ∈ t
            ↔ 1 ≤ n ∧ n = length (filter (λ c, c = Some k) col))
  ∧ sum_list t.*2 = length (filter is_Some col).
Proof.
  intros Hperm Hsorted. split_and!.
  - apply strictly_sorted_keys;
      [exact (stdpp.sorting.Sorted_StronglySorted by_key_asc t Hsorted)|].
    rewrite Hperm, groups_keys. apply NoDup_remove_dups.
  - intros k n. rewrite Hperm, (elem_of_groups (omap id col) (k, n)). simpl.
    rewrite count_present. split.
    + intros [Hk ->]. split; [|done].
      rewrite <- count_present. by apply count_pos.
    + intros [Hn ->]. split; [|done].
      destruct (filter _ col) as [|c ?] eqn:Ef; [simpl in Hn; lia|].
      assert (c ∈ filter (λ c, c = Some k) col) as [-> Hc]%list_elem_of_filter
        by (rewrite Ef; left).
      apply list_elem_of_omap. by exists (Some k).
  - by rewrite Hperm, sum_groups, length_present.
Qed.

Lemma omap_round (df_wt : list fight) :
  omap round df_wt = omap id (round <$> df_wt).
Proof.
  induction df_wt as [|row df IH]; [done|].
  rewrite fmap_cons. simpl. destruct (round row); [f_equal|]; exact IH.
Qed.

(** X16. [fights_by_round] has one row for every round that a fight has,
    with the number of the fights of that round, which is at least 1;
    the rows are in the order of strictly increasing round, and the
    counts add up to the number of fights that have a round. *)
Theorem fights_by_round_shape df_wt :
  let t := fights_by_round df_wt in
  StronglySorted (λ a b, (a.1 < b.1)%Z) t
  ∧ (∀ r n, (r, n) ∈ t
            ↔ 1 ≤ n ∧ n = length (filter (λ c, c = Some r) (round <$> df_wt)))
  ∧ sum_list t.*2 = length (filter is_Some (round <$> df_wt)).
Proof.
  apply counts_by_key.
  - unfold fights_by_round, value_counts.
    by rewrite !merge_sort_Permutation, omap_round.
  - apply (Sorted_merge_sort by_key_asc).
Qed.

(** X17. [fights_per_year] has one row for every year that a fight has,
    with the number of the fights of that year, which is at least 1; the
    rows are in the order of strictly increasing year, and the counts
    add up to the number of fights that have a year. *)
Theorem fights_per_year_shape (year : list (option Z)) :
  let t := fights_per_year year in
  StronglySorted (λ a b, (a.1 < b.1)%Z) t
  ∧ (∀ y n, (y, n) ∈ t
            ↔ 1 ≤ n ∧ n = length (filter (λ c, c = Some y) year))
  ∧ sum_list t.*2 = length (filter is_Some year).
Proof.
  apply counts_by_key.
  - unfold fights_per_year. by rewrite !merge_sort_Permutation.
  - apply (Sorted_merge_sort by_key_asc).
Qed.

(** ** The fighter page *)

Lemma normalize_name_local_eq name :
  _normalize_name_local name = _normalize_name name.
Proof. reflexivity. Qed.

Lemma upper_is_W_trimmed x :
  trimmed x → upper_is_W x = is_W (result_code x).
Proof.
  unfold trimmed, upper_is_W, is_W, result_code. intros Hx.
  destruct x as [| |s]; [done..|]. simpl. by rewrite (Hx s).
Qed.

(** On a clean fight the page selects the fight for a fighter exactly
    when the scan of [fighter_summary] counts its win for the fighter. *)
Lemma page_mask_credited f row :
  clean_fight row → page_mask f row = true ↔ credited row = Some f.
Proof.
  intros (H1 & H2 & Hboth). unfold page_mask, credited.
  rewrite (upper_is_W_trimmed _ H1), (upper_is_W_trimmed _ H2).
  unfold _normalize_name_local.
  fold (_normalize_name (p1_name row)). fold (_normalize_name (p2_name row)).
  destruct (is_W (result_code (p1_result row))),
           (is_W (result_code (p2_result row)));
    [by destruct Hboth|..];
    destruct (_normalize_name (p1_name row)) as [f1|],
             (_normalize_name (p2_name row)) as [f2|];
    repeat case_bool_decide; simpl; split; intros; simplify_eq; done.
Qed.

(** X18. On a table of clean fights (result codes with no blank around
    them, and never a win on both sides), the fights that the fighter
    page selects as the wins of a fighter are as many as the wins that
    [fighter_summary] reports for that fighter. *)
Theorem page_wins_match_summary df_wt df_stats rows row :
  Forall clean_fight df_wt →
  fighter_summary df_wt df_stats = Ok rows → row ∈ rows →
  length (fighter_wins (Summary.fighter_name (Summary.base row)) df_wt)
  = Summary.total_wins (Summary.base row).
Proof.
  intros Hclean Hrows Hrow.
  destruct (fighter_summary_rows _ _ _ _ Hrows Hrow) as (f & s & _ & ->).
  simpl. rewrite scan_total. unfold fighter_wins.
  rewrite (length_filter_iff _ (λ r, credited r = Some f)).
  - rewrite <- (sum_ind_filter (λ r, credited r = Some f)).
    f_equal. apply list_fmap_ext. intros i r _. unfold delta, hits.
    by rewrite andb_true_r.
  - intros r Hr. apply page_mask_credited.
    rewrite Forall_forall in Hclean. by apply Hclean.
Qed.

Lemma page_wins_match_summary_witness :
  length (fighter_wins (Summary.fighter_name (Summary.base example_row))
                       [example_fight])
  = Summary.total_wins (Summary.base example_row).
Proof.
  apply (page_wins_match_summary [example_fight] [example_stat] example_rows).
  - repeat constructor.
    + intros s [= <-]. reflexivity.
    + intros s [= <-]. reflexivity.
    + intros [_ H]. discriminate H.
  - vm_compute. reflexivity.
  - apply list_elem_of_further, list_elem_of_here.
Defined.



(** ** The order of the fights, and the filter by weight class *)






Lemma class_keys_cons row (df_wt : list fight) :
  class_keys (row :: df_wt)
  = match class_key row with
    | Some k => k :: class_keys df_wt
    | None => class_keys df_wt
    end.
Proof. reflexivity. Qed.

Lemma class_key_class row k : class_key row = Some k → wtClass row = CStr k.1.
Proof.
  unfold class_key, present.
  destruct (wtClass row), (decision_group row); try done.
  by intros [= <-].
Qed.

Lemma class_keys_filter w (df_wt : list fight) :
  class_keys (filter (λ row, wtClass row = CStr w) df_wt)
  = filter (λ k, k.1 = w) (class_keys df_wt).
Proof.
  induction df_wt as [|row df IH]; [done|].
  rewrite filter_cons, (class_keys_cons row df).
  destruct (decide (wtClass row = CStr w)) as [Hw|Hw].
  - rewrite class_keys_cons.
    destruct (class_key row) as [k|] eqn:Ek; [|exact IH].
    apply class_key_class in Ek. rewrite Hw in Ek. injection Ek as Ek.
    rewrite filter_cons, decide_True by done. by rewrite IH.
  - destruct (class_key row) as [k|] eqn:Ek; [|exact IH].
    apply class_key_class in Ek.
    rewrite filter_cons, decide_False by congruence. exact IH.
Qed.

Lemma class_row_iff df_wt row :
  row ∈ win_percentages_by_weight_and_method df_wt
  ↔ (ClassRow.wtClass row, ClassRow.metodo row) ∈ class_keys df_wt
    ∧ ClassRow.quantidade row
      = count (ClassRow.wtClass row, ClassRow.metodo row) (class_keys df_wt)
    ∧ ClassRow.percentual row
      = percent_of (ClassRow.quantidade row)
          (length (filter (λ k, k.1 = ClassRow.wtClass row) (class_keys df_wt))).
Proof.
  rewrite class_rows_perm, list_elem_of_fmap. split.
  - intros (g & -> & [Hin Hc]%elem_of_groups). simpl.
    rewrite class_total_keys. destruct g as [[w m] n]. by simpl in *.
  - intros (Hin & Hq & Hp). destruct row as [w m n p]. simpl in *.
    exists (w, m, n). rewrite class_total_keys. simpl. split.
    + by rewrite Hp.
    + by apply elem_of_groups.
Qed.

Lemma filter_filter_key w (keys : list (string * string)) :
  filter (λ k, k.1 = w) (filter (λ k, k.1 = w) keys)
  = filter (λ k, k.1 = w) keys.
Proof.
  induction keys as [|k keys IH]; [done|].
  rewrite (filter_cons _ k keys).
  destruct (decide (k.1 = w)) as [Hk|]; [|exact IH].
  rewrite filter_cons, decide_True by done. by rewrite IH.
Qed.

Lemma count_filter_key w m (keys : list (string * string)) :
  count (w, m) (filter (λ k, k.1 = w) keys) = count (w, m) keys.
Proof.
  unfold count. induction keys as [|k keys IH]; [done|].
  rewrite (filter_cons (λ k, k.1 = w)), (filter_cons (λ x, x = (w, m)) k keys).
  destruct (decide (k.1 = w)) as [Hk|Hk].
  - rewrite filter_cons. destruct (decide (k = (w, m))); simpl; by rewrite IH.
  - rewrite decide_False by (by intros ->). exact IH.
Qed.

(** X21. The weight classes do not mix in
    [win_percentages_by_weight_and_method]: the rows of a weight class
    are the same on the whole table and on the table filtered to the
    fights of that weight class. *)
Theorem class_rows_of_filtered_table df_wt w row :
  ClassRow.wtClass row = w →
  row ∈ win_percentages_by_weight_and_method df_wt
  ↔ row ∈ win_percentages_by_weight_and_method
            (filter (λ r, wtClass r = CStr w) df_wt).
Proof.
  intros Hw. rewrite !class_row_iff, Hw, class_keys_filter.
  rewrite filter_filter_key, count_filter_key, list_elem_of_filter.
  simpl. tauto.
Qed.

Lemma class_rows_of_filtered_table_witness :
  example_class_row
    ∈ win_percentages_by_weight_and_method [example_fight; drawn_fight]
  ↔ example_class_row
      ∈ win_percentages_by_weight_and_method
          (filter (λ r, wtClass r = CStr "Lightweight")
                  [example_fight; drawn_fight]).
Proof.
  apply class_rows_of_filtered_table. reflexivity.
Defined.

(** X22. The fighter page finds its row: for every fighter of the
    statistics table, the selection of the summary by that name has a
    first row, which carries that name and the five statistics of a row
    of the statistics table with that name. *)
Theorem page_finds_row df_wt df_stats rows st :
  fighter_summary df_wt df_stats = Ok rows → st ∈ df_stats →
  ∃ row st',
    summ_row (Stat.fighter_name st) rows = Some row
    ∧ Summary.fighter_name (Summary.base row) = Stat.fighter_name st
    ∧ st' ∈ df_stats ∧ Stat.fighter_name st' = Stat.fighter_name st
    ∧ Summary.TD_Acc_Pct row = Stat.TD_Acc_Pct st'
    ∧ Summary.Str_Acc_Pct row = Stat.Str_Acc_Pct st'
    ∧ Summary.SLpM row = Stat.SLpM st'
    ∧ Summary.TD_Avg row = Stat.TD_Avg st'
    ∧ Summary.Sub_Avg row = Stat.Sub_Avg st'.
Proof.
  intros Hrows Hst. unfold summ_row.
  assert (Stat.fighter_name st ∈ fighters_of (scan df_wt) df_stats) as Hf.
  { apply elem_of_fighters. left. by exists st. }
  destruct (fighter_summary_has_row _ _ _ _ Hrows Hf) as (r0 & Hr0 & Hn0).
  destruct (filter (λ r, Summary.fighter_name (Summary.base r)
                         = Stat.fighter_name st) rows) as [|row sel] eqn:Esel.
  { assert (r0 ∈ filter (λ r, Summary.fighter_name (Summary.base r)
                              = Stat.fighter_name st) rows) as Hin
      by (by apply list_elem_of_filter).
    rewrite Esel in Hin. by apply elem_of_nil in Hin. }
  assert (row ∈ filter (λ r, Summary.fighter_name (Summary.base r)
                             = Stat.fighter_name st) rows)
    as [Hname Hrow]%list_elem_of_filter by (rewrite Esel; left).
  unfold fighter_summary in Hrows.
  destruct (counts_row (scan df_wt) <$>
              elements (fighters_of (scan df_wt) df_stats)) as [|c0 l];
    [done|].
  assert (rows = (c0 :: l) ≫= merge_row df_stats) as Erows by congruence.
  rewrite Erows in Hrow. apply list_elem_of_bind in Hrow as (c & Hrow & _).
  apply merge_row_cases in Hrow as [[-> Hno]|(st' & Hst' & Hname' & ->)].
  - destruct (Hno st Hst). by rewrite <- Hname.
  - exists (joined c (Some st')), st'. simpl in *.
    split_and!; try done. by rewrite Hname', <- Hname.
Qed.

Lemma page_finds_row_witness :
  ∃ row st',
    summ_row (Stat.fighter_name example_stat) example_rows = Some row
    ∧ Summary.fighter_name (Summary.base row) = Stat.fighter_name example_stat
    ∧ st' ∈ [example_stat]
    ∧ Stat.fighter_name st' = Stat.fighter_name example_stat
    ∧ Summary.TD_Acc_Pct row = Stat.TD_Acc_Pct st'
    ∧ Summary.Str_Acc_Pct row = Stat.Str_Acc_Pct st'
    ∧ Summary.SLpM row = Stat.SLpM st'
    ∧ Summary.TD_Avg row = Stat.TD_Avg st'
    ∧ Summary.Sub_Avg row = Stat.Sub_Avg st'.
Proof.
  apply (page_finds_row [example_fight] [example_stat]).
  - vm_compute. reflexivity.
  - apply list_elem_of_here.
Defined.
